(** * Join-and-aggregate report: the Beam pipeline and the pandas script

    Shallow embedding of [apache_beam_framework_solution.py] and
    [pandas_framework_solution.py].  Python dictionaries are finite maps,
    exceptions are an error monad, the output file is the list of rows
    handed to the CSV writer. *)

From Stdlib Require Import ZArith String Ascii List Lia Sorted OrderedTypeEx.
From stdpp Require Import base option list gmap strings fin_maps.

Local Open Scope string_scope.
Local Open Scope list_scope.
Local Open Scope Z_scope.

(** ** Python values, dictionaries and exceptions *)

(** The values that occur in the two programs: [None], [str], [int], and
    the list of surplus fields that [csv.DictReader] stores under its
    [restkey]. *)
Inductive val : Type :=
  | VNone
  | VStr (s : string)
  | VInt (z : Z)
  | VList (l : list string).

#[global] Instance val_eq_dec : EqDecision val.
Proof. solve_decision. Defined.

(** Dictionary keys are field names, or [None] (the default [restkey] of
    [csv.DictReader]). *)
Abbreviation dict := (gmap (option string) val).

Inductive exn : Type := IndexError | KeyError | TypeError | ValueError.

Inductive result (A : Type) : Type :=
  | Ok (a : A)
  | Raise (e : exn).
Arguments Ok {A} a.
Arguments Raise {A} e.

#[global] Instance result_ret : MRet result := fun A a => Ok a.
#[global] Instance result_bind : MBind result := fun A B f m =>
  match m with
  | Ok a => f a
  | Raise e => Raise e
  end.
#[global] Instance result_fmap : FMap result := fun A B f m =>
  match m with
  | Ok a => Ok (f a)
  | Raise e => Raise e
  end.

(** [d[k]] *)
Definition getitem (d : dict) (k : string) : result val :=
  match d !! Some k with
  | Some v => Ok v
  | None => Raise KeyError
  end.

(** [l[i]] for a non-negative index *)
Definition list_getitem {A : Type} (l : list A) (i : nat) : result A :=
  match l !! i with
  | Some a => Ok a
  | None => Raise IndexError
  end.

(** *** Strings *)

(** [sep.join(l)] on a list of strings, for a one-character separator. *)
Fixpoint join (sep : ascii) (l : list string) : string :=
  match l with
  | [] => ""
  | [x] => x
  | x :: l' => x +:+ String sep (join sep l')
  end.

(** [s.split(sep)] for a one-character separator: the pieces between the
    occurrences of [sep]; never empty. *)
Fixpoint split (sep : ascii) (s : string) : list string :=
  match s with
  | "" => [""]
  | String c s' =>
      if decide (c = sep) then "" :: split sep s'
      else match split sep s' with
           | w :: ws => String c w :: ws
           | [] => [String c ""]
           end
  end.

(** [str.join] raises [TypeError] on an item that is not a string. *)
Definition as_str (v : val) : result string :=
  match v with
  | VStr s => Ok s
  | _ => Raise TypeError
  end.

Definition py_join (sep : ascii) (l : list val) : result string :=
  join sep <$> mapM as_str l.

(** [int(s)] on a string of ASCII characters: surrounding white space is
    ignored, then an optional sign and decimal digits, which single
    underscores may separate.  Python also reads the white space and the
    decimal digits of other scripts: a string that holds a character
    outside ASCII is outside the domain of [int_of_str]. *)
Definition is_space (c : ascii) : bool :=
  let n := nat_of_ascii c in
  ((9 <=? n) && (n <=? 13) || (n =? 32))%nat.

Fixpoint lstrip (s : string) : string :=
  match s with
  | String c s' => if is_space c then lstrip s' else s
  | "" => ""
  end.

Definition digit_of (c : ascii) : option Z :=
  let n := nat_of_ascii c in
  if ((48 <=? n) && (n <=? 57))%nat then Some (Z.of_nat n - 48) else None.

(** [digits acc prev s]: [prev] tells whether the previous character was
    a digit; white space may only trail. *)
Fixpoint digits (acc : Z) (prev : bool) (s : string) : option Z :=
  match s with
  | "" => if prev then Some acc else None
  | String c s' =>
      match digit_of c with
      | Some d => digits (10 * acc + d) true s'
      | None =>
          if prev && Ascii.eqb c "_" then
            match s' with
            | String c' _ => if digit_of c' is Some _ then digits acc false s' else None
            | "" => None
            end
          else if prev && is_space c then
            match lstrip s' with "" => Some acc | _ => None end
          else None
      end
  end.

Definition int_of_str (s : string) : option Z :=
  match lstrip s with
  | String "-" s' => Z.opp <$> digits 0 false s'
  | String "+" s' => digits 0 false s'
  | s' => digits 0 false s'
  end.

(** [int(v)] *)
Definition int (v : val) : result Z :=
  match v with
  | VStr s => match int_of_str s with
              | Some z => Ok z
              | None => Raise ValueError
              end
  | VInt z => Ok z
  | VNone | VList _ => Raise TypeError
  end.

(** [max] of a sequence raises [ValueError] on the empty one. *)
Definition py_max (l : list Z) : result Z :=
  match l with
  | [] => Raise ValueError
  | x :: l' => Ok (foldl Z.max x l')
  end.

(** [sum] adds from the left, starting at 0. *)
Definition py_sum (l : list Z) : Z := foldl Z.add 0 l.


(** ** The Beam pipeline *)

Module Beam.

(** *** Framework primitives *)

(** [beam.ParDo(fn)]: every output of [fn] on every element. *)
Definition ParDo {A B : Type} (fn : A -> result (list B)) (pcoll : list A)
  : result (list B) :=
  mjoin <$> mapM fn pcoll.

(** [beam.Map(f)] for a function that may raise. *)
Definition Map {A B : Type} (f : A -> result B) (pcoll : list A)
  : result (list B) :=
  mapM f pcoll.

(** Grouping by key.  Beam fixes no order of the groups; here a group
    stands where its key was first met and keeps the order of arrival
    of its members. *)
Fixpoint group_insert {K V : Type} `{EqDecision K}
    (k : K) (v : V) (groups : list (K * list V)) : list (K * list V) :=
  match groups with
  | [] => [(k, [v])]
  | (k', vs) :: groups' =>
      if decide (k = k') then (k', vs ++ [v]) :: groups'
      else (k', vs) :: group_insert k v groups'
  end.

Definition GroupByKey {K V : Type} `{EqDecision K} (pcoll : list (K * V))
  : list (K * list V) :=
  foldl (fun groups kv => group_insert kv.1 kv.2 groups) [] pcoll.

(** [beam.GroupBy(f)]: the elements themselves, grouped by [f]. *)
Definition GroupBy {K A : Type} `{EqDecision K} (f : A -> K) (pcoll : list A)
  : list (K * list A) :=
  GroupByKey (map (fun x => (f x, x)) pcoll).

(** [{"dataset1": d1, "dataset2": d2} | beam.CoGroupByKey()]: the tagged
    union of the inputs grouped by key, then each group split by tag. *)
Definition CoGroupByKey {K V : Type} `{EqDecision K} (d1 d2 : list (K * V))
  : list (K * (list V * list V)) :=
  map (fun g : K * list (V + V) =>
         (g.1, (omap (fun t => match t with inl v => Some v | inr _ => None end) g.2,
                omap (fun t => match t with inl _ => None | inr v => Some v end) g.2)))
      (GroupByKey (map (fun kv => (kv.1, inl kv.2)) d1 ++
                   map (fun kv => (kv.1, inr kv.2)) d2)).

(** *** ReadCSVFile *)

(** One row of [csv.DictReader]: [dict(zip(fieldnames, row))], surplus
    fields under the key [None], missing fields set to [None]. *)
Definition DictReader_row (fieldnames row : list string) : dict :=
  let d := foldl (fun (d : dict) fv => <[Some fv.1 := VStr fv.2]> d) ∅
                 (zip fieldnames row) in
  let lf := length fieldnames in
  let lr := length row in
  if (lf <? lr)%nat then <[None := VList (drop lf row)]> d
  else if (lr <? lf)%nat then
    foldl (fun (d : dict) k => <[Some k := VNone]> d) d (drop lr fieldnames)
  else d.

(** The file is given as the rows [csv.reader] parses from it; the first
    one holds the field names, and blank rows are passed over. *)
Definition ReadCSVFile (file : list (list string)) : list dict :=
  match file with
  | [] => []
  | fieldnames :: rows =>
      map (DictReader_row fieldnames)
          (filter (fun row => row <> []) rows)
  end.

(** [lambda cols: (cols["counter_party"], cols)] *)
Definition key_by_counter_party (cols : dict) : result (val * dict) :=
  k ← getitem cols "counter_party"; Ok (k, cols).

(** *** ReshapeData *)

Definition ReshapeData (element : val * (list dict * list dict))
  : result (list dict) :=
  let '(_, (dataset1, dataset2)) := element in
  mapM (fun entry : dict =>
          first ← list_getitem dataset2 0;
          tier ← getitem first "tier";
          Ok (<[Some "tier" := tier]> entry))
       dataset1.

(** *** CompositeKeyFn *)

Definition CompositeKeyFn (keys : list string) (element : dict)
  : result (list (string * dict)) :=
  values ← mapM (getitem element) keys;
  composite_key ← py_join "-" values;
  Ok [(composite_key, element)].

(** *** ExtractAndSum *)

(** [int(x['rating']) for x in data] *)
Definition ratings (data : list dict) : result (list Z) :=
  mapM (fun x => r ← getitem x "rating"; int r) data.

(** [int(x['value']) for x in data if x['status'] == tag] *)
Fixpoint values_where (tag : string) (data : list dict) : result (list Z) :=
  match data with
  | [] => Ok []
  | x :: data' =>
      status ← getitem x "status";
      if decide (status = VStr tag) then
        v ← getitem x "value";
        i ← int v;
        rest ← values_where tag data';
        Ok (i :: rest)
      else values_where tag data'
  end.

(** The tuple [(key, max_rating, sum_arap, sum_accr, total)]. *)
Record aggregate : Type := Aggregate {
  agg_key : string;
  max_rating : Z;
  sum_arap : Z;
  sum_accr : Z;
  total : Z
}.

Definition ExtractAndSum (element : string * list dict)
  : result (list aggregate) :=
  let '(key, data) := element in
  rs ← ratings data;
  max_rating ← py_max rs;
  arap ← values_where "ARAP" data;
  accr ← values_where "ACCR" data;
  Ok [Aggregate key max_rating (py_sum arap) (py_sum accr)
                (Z.of_nat (length data))].

(** *** PrepareOutputData *)

Definition aggr_columns : list string :=
  ["legal_entity"; "counter_party"; "tier"].

(** [for i, key in enumerate(group_by_key): result_dict[key] = split_key[i]] *)
Fixpoint fill_keys (split_key : list string) (i : nat)
    (group_by_key : list string) (result_dict : dict) : result dict :=
  match group_by_key with
  | [] => Ok result_dict
  | key :: rest =>
      v ← list_getitem split_key i;
      fill_keys split_key (S i) rest (<[Some key := VStr v]> result_dict)
  end.

(** [for column in aggr_columns: if column not in result_dict: ...] *)
Definition back_fill (total : Z) (result_dict : dict) : dict :=
  foldl (fun (d : dict) column =>
           match d !! Some column with
           | Some _ => d
           | None => <[Some column := VInt total]> d
           end)
        result_dict aggr_columns.

Definition PrepareOutputData (group_by_key : list string) (element : aggregate)
  : result (list dict) :=
  let split_key := split "-" (agg_key element) in
  result_dict ← fill_keys split_key 0 group_by_key ∅;
  let result_dict := back_fill (total element) result_dict in
  let result_dict :=
    <[Some "max(rating by counterparty)" := VInt (max_rating element)]> result_dict in
  let result_dict :=
    <[Some "sum(value where status=ARAP)" := VInt (sum_arap element)]> result_dict in
  let result_dict :=
    <[Some "sum(value where status=ACCR)" := VInt (sum_accr element)]> result_dict in
  Ok [result_dict].

(** *** SaveOutputToCsv *)

Definition headers : list string :=
  ["legal_entity"; "counter_party"; "tier"; "max(rating by counterparty)";
   "sum(value where status=ARAP)"; "sum(value where status=ACCR)"].

(** The output file: the rows written to it so far, each the list of the
    cells given to the CSV writer.  It has length zero exactly when no
    row has been written. *)
Abbreviation csv_file := (list (list val)).

Definition header_row : list val := map VStr headers.

(** The writer opens the file for appending; [file.tell() == 0] holds
    when the file is empty. *)
Definition SaveOutputToCsv (file : csv_file) (element : list dict)
  : result csv_file :=
  let file := if decide (file = []) then [header_row] else file in
  rows ← mapM (fun row : dict => mapM (getitem row) headers) element;
  Ok (file ++ rows).

(** *** The main program *)

Definition group_by_columns : list (list string) :=
  [ ["tier"]; ["counter_party"]; ["legal_entity"];
    ["legal_entity"; "counter_party"]; ["counter_party"; "tier"];
    ["tier"; "legal_entity"];
    ["legal_entity"; "counter_party"; "tier"] ].

(** Reading, keying and merging the two datasets. *)
Definition merged_data (file1 file2 : list (list string)) : result (list dict) :=
  dataset1 ← Map key_by_counter_party (ReadCSVFile file1);
  dataset2 ← Map key_by_counter_party (ReadCSVFile file2);
  ParDo ReshapeData (CoGroupByKey dataset1 dataset2).

(** The stages of one branch up to [ExtractAndSum]. *)
Definition aggregates (group_by_key : list string) (merged : list dict)
  : result (list aggregate) :=
  keyed ← ParDo (CompositeKeyFn group_by_key) merged;
  let grouped := GroupBy fst keyed in
  let stripped := map (fun group : string * list (string * dict) =>
                         (group.1, map snd group.2)) grouped in
  ParDo ExtractAndSum stripped.

(** The stages of one branch up to [ToList]. *)
Definition output_rows (group_by_key : list string) (merged : list dict)
  : result (list dict) :=
  aggs ← aggregates group_by_key merged;
  ParDo (PrepareOutputData group_by_key) aggs.

(** One branch of the loop over [group_by_columns], writing to [file]. *)
Definition branch (merged : list dict) (file : csv_file)
    (group_by_key : list string) : result csv_file :=
  rows ← output_rows group_by_key merged;
  SaveOutputToCsv file rows.

(** The branches write one after the other, in the order [schedule] in
    which the runner executes them. *)
Fixpoint run_branches (merged : list dict) (schedule : list (list string))
    (file : csv_file) : result csv_file :=
  match schedule with
  | [] => Ok file
  | group_by_key :: rest =>
      file' ← branch merged file group_by_key;
      run_branches merged rest file'
  end.

Definition main (schedule : list (list string))
    (file1 file2 : list (list string)) (file : csv_file) : result csv_file :=
  merged ← merged_data file1 file2;
  run_branches merged schedule file.

End Beam.

(** ** The pandas script *)

Module Pandas.

(** The frames [read_csv] returns for files whose [rating] and [value]
    cells are all integers of 64 bits: [rating] and [value] are int64
    columns, which hold no null.  The other columns hold text, and NaN,
    here [None], for an empty cell.  The two input frames share the
    column [counter_party] only. *)
Record row1 : Type := Row1 {
  legal_entity1 : option string;
  counter_party1 : option string;
  rating1 : Z;
  status1 : option string;
  value1 : Z
}.

Record row2 : Type := Row2 {
  counter_party2 : option string;
  tier2 : option string
}.

Record row : Type := Row {
  legal_entity : option string;
  counter_party : option string;
  tier : option string;
  rating : Z;
  status : option string;
  value : Z
}.

(** int64 arithmetic wraps around. *)
Definition wrap64 (z : Z) : Z := (z + 2 ^ 63) mod 2 ^ 64 - 2 ^ 63.

(** [dataset1.merge(dataset2, on="counter_party")]: the inner join.  The
    rows come key by key, the keys in the order of their first row in
    [dataset1], as [Beam.GroupByKey] gathers keyed values; under a key,
    each of its rows of [dataset1] in turn is paired with the rows of
    [dataset2] that have the key, in their order.  NaN is a key like
    another: it matches NaN. *)
Definition merge (dataset1 : list row1) (dataset2 : list row2) : list row :=
  Beam.GroupByKey (map (fun l => (counter_party1 l, l)) dataset1) ≫= (fun g =>
    g.2 ≫= (fun l =>
      map (fun r => Row (legal_entity1 l) (counter_party1 l) (tier2 r)
                        (rating1 l) (status1 l) (value1 l))
          (filter (fun r => counter_party2 r = g.1) dataset2))).

(** A cell of a text column. *)
Definition text (cell : option string) : val :=
  match cell with
  | Some s => VStr s
  | None => VNone
  end.

(** The columns of the merged frame. *)
Definition columns : list string :=
  ["legal_entity"; "counter_party"; "rating"; "status"; "value"; "tier"].

(** [df[column]] at one row; [KeyError] for a column the frame lacks. *)
Definition cell (r : row) (column : string) : result val :=
  if decide (column = "legal_entity") then Ok (text (legal_entity r))
  else if decide (column = "counter_party") then Ok (text (counter_party r))
  else if decide (column = "tier") then Ok (text (tier r))
  else if decide (column = "rating") then Ok (VInt (rating r))
  else if decide (column = "status") then Ok (text (status r))
  else if decide (column = "value") then Ok (VInt (value r))
  else Raise KeyError.

(** The order in which [groupby] sorts its keys.  A column has one type,
    so values of two kinds are never compared. *)
Definition val_compare (a b : val) : comparison :=
  match a, b with
  | VStr s, VStr t => String.compare s t
  | VInt x, VInt y => Z.compare x y
  | VStr _, _ => Gt
  | _, VStr _ => Lt
  | _, _ => Eq
  end.

Fixpoint key_compare (k k' : list val) : comparison :=
  match k, k' with
  | [], [] => Eq
  | [], _ :: _ => Lt
  | _ :: _, [] => Gt
  | a :: k, b :: k' =>
      match val_compare a b with
      | Eq => key_compare k k'
      | c => c
      end
  end.

(** [df.groupby(group_column)]: [ValueError] for no grouping column and
    [KeyError] for a column the frame lacks; the rows with NaN in a
    grouping column are dropped; the groups come in the sorted order of
    their keys, each with its rows in the order of the frame. *)
Fixpoint group_insert (k : list val) (r : row)
    (groups : list (list val * list row)) : list (list val * list row) :=
  match groups with
  | [] => [(k, [r])]
  | (k', rs) :: groups' =>
      match key_compare k k' with
      | Eq => (k', rs ++ [r]) :: groups'
      | Lt => (k, [r]) :: groups
      | Gt => (k', rs) :: group_insert k r groups'
      end
  end.

Definition groupby (df : list row) (group_column : list string)
  : result (list (list val * list row)) :=
  if decide (group_column = []) then Raise ValueError
  else
    _ ← mapM (fun c => if decide (c ∈ columns) then Ok c else Raise KeyError)
             group_column;
    keyed ← mapM (fun r => k ← mapM (cell r) group_column; Ok (k, r)) df;
    let kept := filter (fun kr : list val * row => VNone ∉ kr.1) keyed in
    Ok (foldl (fun groups kr => group_insert kr.1 kr.2 groups) [] kept).

(** [("rating", "max")]: the maximum of a column over a group; [NaN],
    here [VNone], for no rows. *)
Definition series_max (l : list Z) : val :=
  match l with
  | [] => VNone
  | x :: l' => VInt (foldl Z.max x l')
  end.

(** The sum of an int64 column. *)
Definition int64_sum (l : list Z) : Z :=
  foldl (fun acc v => wrap64 (acc + v)) 0 l.

(** [x[df["status"] == tag].sum()] over the rows of a group. *)
Definition sum_where (tag : string) (rs : list row) : Z :=
  int64_sum (map value (filter (fun r => status r = Some tag) rs)).

Definition aggr_columns : list string :=
  ["legal_entity"; "counter_party"; "tier"].

(** The columns of [grouped] after [agg] and [reset_index]. *)
Definition grouped_columns (group_column : list string) : list string :=
  group_column ++ ["total"; "max_rating"; "sum_arap"; "sum_accr"].

(** One row of [grouped] after [agg] and [reset_index].  [total] counts
    the cells of [rating] that are not null: in an int64 column, all. *)
Definition agg_row (group_column : list string) (g : list val * list row)
  : dict :=
  let d := foldl (fun (d : dict) cv => <[Some cv.1 := cv.2]> d) ∅
                 (zip group_column g.1) in
  <[Some "sum_accr" := VInt (sum_where "ACCR" g.2)]>
    (<[Some "sum_arap" := VInt (sum_where "ARAP" g.2)]>
      (<[Some "max_rating" := series_max (map rating g.2)]>
        (<[Some "total" := VInt (Z.of_nat (length g.2))]> d))).

(** [grouped[column] = grouped['total']] for the columns of
    [aggr_columns] that [grouped] lacks. *)
Definition back_fill (columns : list string) (d : dict) : dict :=
  foldl (fun (d : dict) column =>
           if decide (column ∈ columns) then d
           else match d !! Some "total" with
                | Some t => <[Some column := t]> d
                | None => d
                end)
        d aggr_columns.

(** [grouped.rename(columns={old: new})] on one row. *)
Definition rename (old new : string) (d : dict) : dict :=
  match d !! Some old with
  | Some v => <[Some new := v]> (delete (Some old) d)
  | None => d
  end.

Definition custom_groupby_and_aggregate (df : list row)
    (group_column : list string) : result (list dict) :=
  groups ← groupby df group_column;
  let grouped := map (agg_row group_column) groups in
  let grouped := map (back_fill (grouped_columns group_column)) grouped in
  let grouped := map (delete (Some "total")) grouped in
  let grouped :=
    map (fun d => rename "sum_accr" "sum(value where status=ACCR)"
                   (rename "sum_arap" "sum(value where status=ARAP)"
                     (rename "max_rating" "max(rating by counterparty)" d)))
        grouped in
  Ok grouped.

Definition group_by_columns : list (list string) :=
  [ ["legal_entity"]; ["counter_party"]; ["tier"];
    ["legal_entity"; "counter_party"]; ["counter_party"; "tier"];
    ["tier"; "legal_entity"];
    ["legal_entity"; "counter_party"; "tier"] ].

(** The loop of the main program: [result_df] grows by the rows of each
    grouping in turn. *)
Fixpoint append_all (df : list row) (columns : list (list string))
    (result_df : list dict) : result (list dict) :=
  match columns with
  | [] => Ok result_df
  | group_column :: rest =>
      grouped_df ← custom_groupby_and_aggregate df group_column;
      append_all df rest (result_df ++ grouped_df)
  end.

Definition main (dataset1 : list row1) (dataset2 : list row2)
  : result (list dict) :=
  append_all (merge dataset1 dataset2) group_by_columns [].

End Pandas.

(** ** Example data *)

(** The end-to-end example: two rows of dataset A, one of dataset B. *)
Definition exA : list (list string) :=
  [ ["counter_party"; "legal_entity"; "rating"; "value"; "status"];
    ["CP1"; "LE1"; "5"; "100"; "ARAP"];
    ["CP1"; "LE1"; "3"; "50"; "ACCR"] ].

Definition exB : list (list string) :=
  [ ["counter_party"; "tier"];
    ["CP1"; "T1"] ].

(** A joined record as the Beam pipeline holds it. *)
Definition joined (counter_party legal_entity rating value status tier : string)
  : dict :=
  <[Some "tier" := VStr tier]>
    (Beam.DictReader_row
       ["counter_party"; "legal_entity"; "rating"; "value"; "status"]
       [counter_party; legal_entity; rating; value; status]).

(** The joined records of the example, and the report the Beam program
    writes for them into an empty file when the branches run in the
    order of [group_by_columns]. *)
Definition ex_merged : list dict :=
  [ joined "CP1" "LE1" "5" "100" "ARAP" "T1";
    joined "CP1" "LE1" "3" "50" "ACCR" "T1" ].

Definition ex_report : Beam.csv_file :=
  Eval vm_compute in
    match Beam.run_branches ex_merged Beam.group_by_columns [] with
    | Ok file => file
    | Raise _ => []
    end.

(** The same example as pandas frames. *)
Definition ex_dataset1 : list Pandas.row1 :=
  [ Pandas.Row1 (Some "LE1") (Some "CP1") 5 (Some "ARAP") 100;
    Pandas.Row1 (Some "LE1") (Some "CP1") 3 (Some "ACCR") 50 ].

Definition ex_dataset2 : list Pandas.row2 :=
  [ Pandas.Row2 (Some "CP1") (Some "T1") ].

(** ** Reading a record: its integer rating and value, and its status *)

Definition rating_of (x : dict) : result Z := r ← getitem x "rating"; int r.
Definition value_of (x : dict) : result Z := v ← getitem x "value"; int v.

Record member : Type := Member {
  m_rating : Z;
  m_status : val;
  m_value : Z
}.

(** [views x m]: the record [x] has the integer rating, the status and
    the integer value that [m] lists. *)
Definition views (x : dict) (m : member) : Prop :=
  rating_of x = Ok (m_rating m) /\
  getitem x "status" = Ok (m_status m) /\
  value_of x = Ok (m_value m).

(** A joined record is well formed for the grouping key [keys]: the
    attributes of the key hold strings, and the record has an integer
    rating, a status and an integer value. *)
Definition well_formed (keys : list string) (x : dict) : Prop :=
  (exists values,
     Forall2 (fun k v => x !! Some k = Some (VStr v)) keys values) /\
  exists m, views x m.

(** The sum of a list of integers. *)
Definition Zsum (l : list Z) : Z := foldr Z.add 0 l.

(** The values of the members with a given status. *)
Definition values_with (tag : string) (ms : list member) : list Z :=
  map m_value (filter (fun m => m_status m = VStr tag) ms).

(** The [total] cell of a row of the pandas aggregation. *)
Definition total_cell (d : dict) : Z :=
  match d !! Some "total" with
  | Some (VInt z) => z
  | _ => 0
  end.

(** The cells of an output row, in the order of the header. *)
Definition cells (row : dict) : result (list val) :=
  mapM (getitem row) Beam.headers.

(** ** Keyed values and groups *)

(** The values that arrive under key [k], in their order of arrival. *)
Definition values_of {K V : Type} `{EqDecision K} (k : K) (l : list (K * V))
  : list V :=
  map snd (filter (fun kv : K * V => kv.1 = k) l).

(** The keyed values held by a list of groups. *)
Definition flat {K V : Type} (groups : list (K * list V)) : list (K * V) :=
  groups ≫= (fun g => map (pair g.1) g.2).

(** ** What the join should give for one keyed record of dataset A *)

(** The [tier] of the first record of [d2] that arrived under key [k]. *)
Definition first_tier (k : val) (d2 : list (val * dict)) : option val :=
  match filter (fun kv : val * dict => kv.1 = k) d2 with
  | [] => None
  | kv :: _ => kv.2 !! Some "tier"
  end.

(** The copy of the record with that [tier]. *)
Definition join_one (d2 : list (val * dict)) (ka : val * dict) : option dict :=
  match first_tier ka.1 d2 with
  | Some t => Some (<[Some "tier" := t]> ka.2)
  | None => None
  end.

(** [join_one] on the tagged union of the two datasets. *)
Definition join_tagged (d2 : list (val * dict)) (kt : val * (dict + dict))
  : option dict :=
  match kt.2 with
  | inl a => join_one d2 (kt.1, a)
  | inr _ => None
  end.


Definition ex_keyed2 : list (val * dict) :=
  map (pair (VStr "CP1")) (Beam.ReadCSVFile exB).

(** A pandas joined row: a row of dataset A with a tier. *)
Definition with_tier (a : Pandas.row1) (t : option string) : Pandas.row :=
  Pandas.Row (Pandas.legal_entity1 a) (Pandas.counter_party1 a) t
             (Pandas.rating1 a) (Pandas.status1 a) (Pandas.value1 a).

(** The rows of dataset B that match a row of dataset A. *)
Definition matches (a : Pandas.row1) (dataset2 : list Pandas.row2)
  : list Pandas.row2 :=
  filter (fun b => Pandas.counter_party2 b = Pandas.counter_party1 a) dataset2.

(** Dataset A of the example with a third row, whose counter party CP2
    is absent from dataset B. *)
Definition exA_unmatched : list (list string) :=
  exA ++ [ ["CP2"; "LE2"; "4"; "70"; "ARAP"] ].

Definition ex_dataset1_unmatched : list Pandas.row1 :=
  ex_dataset1 ++ [ Pandas.Row1 (Some "LE2") (Some "CP2") 4 (Some "ARAP") 70 ].

(** Dataset B of the example with a tier that holds the separator. *)
Definition exB_dash : list (list string) :=
  [ ["counter_party"; "tier"];
    ["CP1"; "T-1"] ].

Definition ex_dataset2_dash : list Pandas.row2 :=
  [ Pandas.Row2 (Some "CP1") (Some "T-1") ].

(** Three records of dataset A that share the tier Gold. *)
Definition exA_gold : list (list string) :=
  [ ["counter_party"; "legal_entity"; "rating"; "value"; "status"];
    ["CP1"; "LE1"; "5"; "100"; "ARAP"];
    ["CP2"; "LE1"; "3"; "50"; "ACCR"];
    ["CP1"; "LE2"; "4"; "70"; "ARAP"] ].

Definition exB_gold : list (list string) :=
  [ ["counter_party"; "tier"];
    ["CP1"; "Gold"];
    ["CP2"; "Gold"] ].

(** The enumeration order of the grouping keys in the report's
    description. *)
Definition enumeration_order : list (list string) :=
  [ ["tier"]; ["counter_party"]; ["legal_entity"];
    ["legal_entity"; "counter_party"]; ["counter_party"; "tier"];
    ["tier"; "legal_entity"];
    ["legal_entity"; "counter_party"; "tier"] ].

(** The rows of the pandas script for the groupings [columns], one
    after the other. *)
Definition rows_in_order (df : list Pandas.row) (columns : list (list string))
  : result (list dict) :=
  mjoin <$> mapM (Pandas.custom_groupby_and_aggregate df) columns.

(** Dataset A with three malformed rows: one field too many, a value
    that is no integer, and the last field missing. *)
Definition exA_malformed : list (list string) :=
  [ ["counter_party"; "legal_entity"; "rating"; "value"; "status"];
    ["CP1"; "LE1"; "5"; "100"; "ARAP"; "surplus"];
    ["CP1"; "LE1"; "3"; "abc"; "OPEN"];
    ["CP1"; "LE1"; "4"; "7"] ].

(** A string of ASCII characters. *)
Definition ascii_only (s : string) : Prop :=
  Forall (fun c => (nat_of_ascii c < 128)%nat) (list_ascii_of_string s).

(** The field, when it holds a string, holds ASCII characters only. *)
Definition ascii_cell (x : dict) (field : string) : Prop :=
  forall s, x !! Some field = Some (VStr s) -> ascii_only s.

(** A record on which the aggregation raises: its rating is no integer,
    or it has status ARAP or ACCR and its value is no integer.  The
    cell that is no integer is missing, [None], a list, or a string of
    ASCII characters that [int] rejects. *)
Definition unreadable (x : dict) : Prop :=
  ((exists e, rating_of x = Raise e) /\ ascii_cell x "rating") \/
  ((getitem x "status" = Ok (VStr "ARAP") \/
    getitem x "status" = Ok (VStr "ACCR")) /\
   (exists e, value_of x = Raise e) /\ ascii_cell x "value").

(** The joined records of the example and a third one whose status is
    neither ARAP nor ACCR. *)
Definition ex_merged_open : list dict :=
  ex_merged ++ [ joined "CP1" "LE1" "4" "7" "OPEN" "T1" ].

(** The output row of the example for the grouping key [tier]. *)
Definition ex_row : dict :=
  <[Some "sum(value where status=ACCR)" := VInt 50]>
    (<[Some "sum(value where status=ARAP)" := VInt 100]>
      (<[Some "max(rating by counterparty)" := VInt 5]>
        (Beam.back_fill 2 (<[Some "tier" := VStr "T1"]> ∅)))).

(** The values a cell of a frame can hold: strings and integers. *)
Definition scalar (v : val) : Prop :=
  match v with
  | VStr _ | VInt _ => True
  | VNone | VList _ => False
  end.

(** [k] sorts before [k']. *)
Definition key_lt (k k' : list val) : Prop := Pandas.key_compare k k' = Lt.

(** A group of a frame is sound when its key holds no null and its
    rows, at least one, all have its key in the grouping columns. *)
Definition sound_group (group_column : list string)
    (g : list val * list Pandas.row) : Prop :=
  g.2 <> [] /\
  Forall scalar g.1 /\
  forall r, r ∈ g.2 -> mapM (Pandas.cell r) group_column = Ok g.1.

(** The grouping attribute [c] of a row of the merged frame. *)
Definition attribute (c : string) (r : Pandas.row) : option string :=
  if decide (c = "legal_entity") then Pandas.legal_entity r
  else if decide (c = "counter_party") then Pandas.counter_party r
  else if decide (c = "tier") then Pandas.tier r
  else None.

(** A row is complete for the grouping columns when none of these cells
    is empty. *)
Definition complete (group_column : list string) (r : Pandas.row) : Prop :=
  Forall (fun c => is_Some (attribute c r)) group_column.

#[global] Instance complete_dec (group_column : list string) (r : Pandas.row) :
  Decision (complete group_column r).
Proof. unfold complete. apply _. Defined.

(** The example with two values at the top of the int64 range. *)
Definition exA_large : list (list string) :=
  [ ["counter_party"; "legal_entity"; "rating"; "value"; "status"];
    ["CP1"; "LE1"; "5"; "9223372036854775807"; "ARAP"];
    ["CP1"; "LE1"; "3"; "9223372036854775807"; "ARAP"] ].

Definition ex_dataset1_large : list Pandas.row1 :=
  [ Pandas.Row1 (Some "LE1") (Some "CP1") 5 (Some "ARAP") 9223372036854775807;
    Pandas.Row1 (Some "LE1") (Some "CP1") 3 (Some "ARAP") 9223372036854775807 ].

(** The example with the legal_entity cell of its first row empty. *)
Definition exA_blank : list (list string) :=
  [ ["counter_party"; "legal_entity"; "rating"; "value"; "status"];
    ["CP1"; ""; "5"; "100"; "ARAP"];
    ["CP1"; "LE1"; "3"; "50"; "ACCR"] ].

Definition ex_dataset1_blank : list Pandas.row1 :=
  [ Pandas.Row1 None (Some "CP1") 5 (Some "ARAP") 100;
    Pandas.Row1 (Some "LE1") (Some "CP1") 3 (Some "ACCR") 50 ].

(** The rows that one branch of the Beam program hands to the writer,
    as the cells it writes. *)
Definition branch_rows (merged : list dict) (keys : list string)
  : result (list (list val)) :=
  out ← Beam.output_rows keys merged; mapM cells out.

(** ** The error monad *)

Lemma bind_Ok {A B : Type} (f : A -> result B) (m : result A) (b : B) :
  m ≫= f = Ok b <-> exists a, m = Ok a /\ f a = Ok b.
Proof.
  destruct m as [a|e]; simpl; split.
  - intros H. exists a. split; [reflexivity | exact H].
  - intros (a' & Ha & Hb). injection Ha as ->. exact Hb.
  - discriminate.
  - intros (a' & Ha & _). discriminate.
Qed.

Lemma fmap_Ok {A B : Type} (f : A -> B) (m : result A) (b : B) :
  f <$> m = Ok b <-> exists a, m = Ok a /\ b = f a.
Proof.
  destruct m as [a|e]; simpl; split.
  - intros [= <-]. eauto.
  - intros (a' & [= ->] & ->). reflexivity.
  - discriminate.
  - intros (a' & Ha & _). discriminate.
Qed.

Lemma mapM_Ok {A B : Type} (f : A -> result B) (l : list A) (k : list B) :
  mapM f l = Ok k <-> Forall2 (fun x y => f x = Ok y) l k.
Proof.
  revert k. induction l as [|x l IH]; intros k; simpl.
  - split.
    + intros [= <-]. constructor.
    + intros H. inversion H. reflexivity.
  - split.
    + intros H. apply bind_Ok in H as (y & Hy & H).
      apply bind_Ok in H as (k' & Hk' & [= <-]).
      constructor; [exact Hy | apply IH, Hk'].
    + intros H. inversion H as [|? y ? k' Hy Hk']; subst.
      rewrite Hy. simpl. apply IH in Hk'. rewrite Hk'. reflexivity.
Qed.

Lemma mapM_Ok_length {A B : Type} (f : A -> result B) (l : list A) (k : list B) :
  mapM f l = Ok k -> length k = length l.
Proof. intros H. apply mapM_Ok in H. symmetry. eapply Forall2_length, H. Qed.

Lemma mapM_total {A B : Type} (f : A -> result B) (l : list A) :
  Forall (fun x => exists y, f x = Ok y) l -> exists k, mapM f l = Ok k.
Proof.
  induction 1 as [|x l [y Hy] _ [k Hk]]; simpl.
  - eexists. reflexivity.
  - rewrite Hy, Hk. simpl. eexists. reflexivity.
Qed.

Lemma mapM_Raise {A B : Type} (f : A -> result B) (l : list A) (x : A) (e : exn) :
  x ∈ l -> f x = Raise e -> exists e', mapM f l = Raise e'.
Proof.
  induction 1 as [x l|x y l _ IH]; intros Hx; simpl.
  - rewrite Hx. eauto.
  - destruct (f y) as [b|e1]; simpl; [|eauto].
    destruct (IH Hx) as [e' ->]. eauto.
Qed.

Lemma mapM_ext_Ok {A B : Type} (f : A -> result B) (g : A -> B) (l : list A) :
  Forall (fun x => f x = Ok (g x)) l -> mapM f l = Ok (map g l).
Proof.
  induction 1 as [|x l Hx _ IH]; simpl; [reflexivity|].
  rewrite Hx, IH. reflexivity.
Qed.

(** ** Joining and splitting on a separator *)

Fixpoint has_char (c : ascii) (s : string) : bool :=
  match s with
  | "" => false
  | String c' s' => if decide (c' = c) then true else has_char c s'
  end.

Lemma split_not_nil (sep : ascii) (s : string) : split sep s <> [].
Proof.
  induction s as [|c s IH]; simpl; [discriminate|].
  destruct (decide (c = sep)); [discriminate|].
  destruct (split sep s); [contradiction | discriminate].
Qed.

Lemma split_no_sep (sep : ascii) (s : string) :
  has_char sep s = false -> split sep s = [s].
Proof.
  induction s as [|c s IH]; simpl; [reflexivity|].
  destruct (decide (c = sep)); [discriminate|].
  intros H. rewrite (IH H). reflexivity.
Qed.

Lemma split_app_sep (sep : ascii) (s t : string) :
  has_char sep s = false ->
  split sep (s +:+ String sep t) = s :: split sep t.
Proof.
  induction s as [|c s IH]; simpl.
  - intros _. destruct (decide (sep = sep)); [reflexivity | contradiction].
  - destruct (decide (c = sep)); [discriminate|].
    intros H. rewrite (IH H). reflexivity.
Qed.

(** The first piece of a split stops at the first separator. *)
Lemma split_head_no_sep (sep : ascii) (s : string) :
  exists w ws, split sep s = w :: ws /\ has_char sep w = false.
Proof.
  induction s as [|c s (w & ws & Hs & Hw)]; simpl.
  - exists "", []. split; reflexivity.
  - destruct (decide (c = sep)) as [->|Hc].
    + exists "", (split sep s). split; reflexivity.
    + rewrite Hs. exists (String c w), ws. split; [reflexivity|].
      simpl. destruct (decide (c = sep)); [contradiction | exact Hw].
Qed.

Lemma split_head_app (sep : ascii) (s t : string) :
  head (split sep (s +:+ String sep t)) = head (split sep s).
Proof.
  induction s as [|c s IH]; simpl.
  - destruct (decide (sep = sep)); [reflexivity | contradiction].
  - destruct (decide (c = sep)); [reflexivity|].
    destruct (split_head_no_sep sep (s +:+ String sep t)) as (w & ws & Hs & _).
    destruct (split_head_no_sep sep s) as (w' & ws' & Hs' & _).
    rewrite Hs, Hs' in *. simpl in *. congruence.
Qed.

Lemma join_cons (sep : ascii) (v : string) (vs : list string) :
  vs <> [] -> join sep (v :: vs) = v +:+ String sep (join sep vs).
Proof. destruct vs; [contradiction | reflexivity]. Qed.

(** Splitting a joined list gives the list back when no item holds the
    separator. *)
Lemma split_join (sep : ascii) (vs : list string) :
  vs <> [] -> Forall (fun v => has_char sep v = false) vs ->
  split sep (join sep vs) = vs.
Proof.
  intros Hne H. induction H as [|v vs Hv H IH]; [contradiction|].
  destruct vs as [|v' vs].
  - simpl. apply split_no_sep, Hv.
  - rewrite join_cons by discriminate.
    rewrite split_app_sep by exact Hv.
    rewrite IH by discriminate. reflexivity.
Qed.

(** The first piece of a split joined list is its first item only when
    that item holds no separator. *)
Lemma split_join_head (sep : ascii) (v : string) (vs : list string) :
  head (split sep (join sep (v :: vs))) = Some v -> has_char sep v = false.
Proof.
  intros H.
  assert (head (split sep v) = Some v) as Hv.
  { destruct vs; [exact H|].
    rewrite join_cons in H by discriminate.
    rewrite split_head_app in H. exact H. }
  destruct (split_head_no_sep sep v) as (w & ws & Hs & Hw).
  rewrite Hs in Hv. simpl in Hv. congruence.
Qed.

(** The first [length vs] pieces are the items exactly when no item holds
    the separator. *)
Lemma take_split_join (sep : ascii) (vs : list string) :
  take (length vs) (split sep (join sep vs)) = vs <->
  Forall (fun v => has_char sep v = false) vs.
Proof.
  split.
  - induction vs as [|v vs IH]; intros H; [constructor|].
    assert (has_char sep v = false) as Hv.
    { apply (split_join_head sep v vs).
      destruct (split sep (join sep (v :: vs))); simpl in H; [discriminate|].
      simpl. congruence. }
    constructor; [exact Hv|].
    destruct vs as [|v' vs]; [constructor|].
    apply IH.
    rewrite join_cons in H by discriminate.
    rewrite split_app_sep in H by exact Hv.
    simpl in H. injection H as H. exact H.
  - intros H. destruct vs as [|v vs]; [reflexivity|].
    rewrite split_join by (discriminate || exact H).
    apply firstn_all.
Qed.

Lemma split_app_sep_length (sep : ascii) (s t : string) :
  (S (length (split sep t)) <= length (split sep (s +:+ String sep t)))%nat.
Proof.
  induction s as [|c s IH]; simpl.
  - destruct (decide (sep = sep)); [simpl; lia | contradiction].
  - destruct (decide (c = sep)); [simpl; lia|].
    destruct (split sep (s +:+ String sep t)); simpl in *; lia.
Qed.

Lemma split_join_length (sep : ascii) (vs : list string) :
  (length vs <= length (split sep (join sep vs)))%nat.
Proof.
  induction vs as [|v vs IH]; [simpl; lia|].
  destruct vs as [|v' vs].
  - simpl. pose proof (split_not_nil sep v).
    destruct (split sep v); [contradiction | simpl; lia].
  - rewrite join_cons by discriminate.
    pose proof (split_app_sep_length sep v (join sep (v' :: vs))).
    simpl length in *. lia.
Qed.

(** ** The output row of [PrepareOutputData] *)

Lemma fill_keys_spec (split_key : list string) (keys : list string) :
  forall (i : nat) (d : dict),
    (i + length keys <= length split_key)%nat ->
    exists d', Beam.fill_keys split_key i keys d = Ok d' /\
      (NoDup keys -> forall j k, keys !! j = Some k ->
         d' !! Some k = VStr <$> split_key !! (i + j)%nat) /\
      (forall k, k ∉ keys -> d' !! Some k = d !! Some k).
Proof.
  induction keys as [|key keys IH]; intros i d Hlen; simpl in *.
  - exists d. split; [reflexivity|]. split; [|reflexivity].
    intros _ j k Hj. rewrite lookup_nil in Hj. discriminate.
  - unfold list_getitem.
    destruct (lookup_lt_is_Some_2 split_key i) as [v Hv]; [lia|].
    rewrite Hv. simpl.
    destruct (IH (S i) (<[Some key := VStr v]> d)) as (d' & Hd' & Hin & Hout);
      [lia|].
    exists d'. split; [exact Hd'|]. split.
    + intros Hnd j k Hj. apply NoDup_cons in Hnd as [Hkey Hnd].
      destruct j as [|j]; simpl in Hj.
      * injection Hj as <-. rewrite (Hout key Hkey).
        rewrite lookup_insert_eq, Nat.add_0_r, Hv. reflexivity.
      * rewrite (Hin Hnd j k Hj). f_equal. f_equal. lia.
    + intros k Hk. apply not_elem_of_cons in Hk as [Hne Hk].
      rewrite (Hout k Hk). apply lookup_insert_ne. congruence.
Qed.

Lemma back_fill_fold (total : Z) (cols : list string) :
  forall (d : dict) (k : string),
    foldl (fun (d : dict) column =>
             match d !! Some column with
             | Some _ => d
             | None => <[Some column := VInt total]> d
             end) d cols !! Some k =
    match d !! Some k with
    | Some v => Some v
    | None => if decide (k ∈ cols) then Some (VInt total) else None
    end.
Proof.
  induction cols as [|c cols IH]; intros d k; simpl.
  - destruct (d !! Some k); [reflexivity|].
    destruct (decide (k ∈ [])) as [H|_]; [|reflexivity].
    apply elem_of_nil in H. contradiction.
  - rewrite IH. destruct (decide (c = k)) as [->|Hne].
    + destruct (d !! Some k) as [v|] eqn:Hk.
      * rewrite Hk. reflexivity.
      * rewrite lookup_insert_eq.
        destruct (decide (k ∈ k :: cols)) as [_|H]; [reflexivity|].
        exfalso. apply H. left.
    + assert ((match d !! Some c with
               | Some _ => d
               | None => <[Some c := VInt total]> d
               end) !! Some k = d !! Some k) as ->.
      { destruct (d !! Some c); [reflexivity|].
        apply lookup_insert_ne. congruence. }
      destruct (d !! Some k); [reflexivity|].
      destruct (decide (k ∈ cols)) as [H|H];
        destruct (decide (k ∈ c :: cols)) as [H'|H']; try reflexivity.
      * exfalso. apply H'. right. exact H.
      * exfalso. apply elem_of_cons in H' as [->|H']; [apply Hne|apply H];
          [reflexivity | exact H'].
Qed.

Lemma back_fill_lookup (total : Z) (d : dict) (k : string) :
  Beam.back_fill total d !! Some k =
  match d !! Some k with
  | Some v => Some v
  | None => if decide (k ∈ Beam.aggr_columns) then Some (VInt total) else None
  end.
Proof. apply back_fill_fold. Qed.

(** The seven grouping keys are duplicate-free, non-empty lists of the
    three grouping attributes. *)
Lemma group_by_columns_wf (keys : list string) :
  keys ∈ Beam.group_by_columns ->
  NoDup keys /\ keys ⊆ Beam.aggr_columns /\ keys <> [].
Proof.
  unfold Beam.group_by_columns. rewrite !elem_of_cons, elem_of_nil.
  intros H.
  repeat (destruct H as [->|H]); try contradiction;
    (split; [apply (bool_decide_unpack _); vm_compute; reflexivity|]);
    (split; [|discriminate]);
    intros k; unfold Beam.aggr_columns; rewrite !elem_of_cons, !elem_of_nil;
    tauto.
Qed.

(** The three attributes and the three aggregate headers are apart. *)
Lemma aggr_column_not_header (k : string) :
  k ∈ Beam.aggr_columns ->
  k <> "max(rating by counterparty)" /\
  k <> "sum(value where status=ARAP)" /\
  k <> "sum(value where status=ACCR)".
Proof.
  unfold Beam.aggr_columns. rewrite !elem_of_cons, elem_of_nil.
  intros [->|[->|[->|[]]]]; repeat split; discriminate.
Qed.

(** What [PrepareOutputData] yields: the grouping attributes hold the
    pieces of the split key, the other attributes hold [total]. *)
Lemma PrepareOutputData_spec (keys : list string) (agg : Beam.aggregate) :
  NoDup keys -> keys ⊆ Beam.aggr_columns ->
  (length keys <= length (split "-" (Beam.agg_key agg)))%nat ->
  exists row, Beam.PrepareOutputData keys agg = Ok [row] /\
    (forall j k, keys !! j = Some k ->
       row !! Some k = VStr <$> split "-" (Beam.agg_key agg) !! j) /\
    (forall c, c ∈ Beam.aggr_columns -> c ∉ keys ->
       row !! Some c = Some (VInt (Beam.total agg))) /\
    row !! Some "max(rating by counterparty)" = Some (VInt (Beam.max_rating agg)) /\
    row !! Some "sum(value where status=ARAP)" = Some (VInt (Beam.sum_arap agg)) /\
    row !! Some "sum(value where status=ACCR)" = Some (VInt (Beam.sum_accr agg)).
Proof.
  intros Hnd Hsub Hlen. unfold Beam.PrepareOutputData.
  destruct (fill_keys_spec (split "-" (Beam.agg_key agg)) keys 0 ∅)
    as (d & Hd & Hin & Hout); [simpl; lia|].
  rewrite Hd. simpl. eexists. split; [reflexivity|].
  assert (forall c, c ∈ Beam.aggr_columns ->
            forall r : dict,
            <[Some "sum(value where status=ACCR)" := VInt (Beam.sum_accr agg)]>
              (<[Some "sum(value where status=ARAP)" := VInt (Beam.sum_arap agg)]>
                (<[Some "max(rating by counterparty)" := VInt (Beam.max_rating agg)]> r))
              !! Some c = r !! Some c) as Hskip.
  { intros c Hc r. destruct (aggr_column_not_header c Hc) as (H1 & H2 & H3).
    rewrite !lookup_insert_ne by congruence. reflexivity. }
  split; [|split; [|split; [|split]]].
  - intros j k Hj.
    assert (k ∈ keys) as Hk by (eapply list_elem_of_lookup_2, Hj).
    rewrite Hskip by (apply Hsub, Hk).
    rewrite back_fill_lookup, (Hin Hnd j k Hj). simpl.
    destruct (lookup_lt_is_Some_2 (split "-" (Beam.agg_key agg)) j) as [v Hv].
    { apply lookup_lt_Some in Hj. lia. }
    rewrite Hv. reflexivity.
  - intros c Hc Hnot. rewrite Hskip by exact Hc.
    rewrite back_fill_lookup, (Hout c Hnot), lookup_empty.
    destruct (decide (c ∈ Beam.aggr_columns)); [reflexivity | contradiction].
  - rewrite lookup_insert_ne by discriminate.
    rewrite lookup_insert_ne by discriminate.
    apply lookup_insert_eq.
  - rewrite lookup_insert_ne by discriminate. apply lookup_insert_eq.
  - apply lookup_insert_eq.
Qed.

(** ** The composite key *)

Lemma mapM_as_str (values : list string) :
  mapM as_str (map VStr values) = Ok values.
Proof.
  induction values as [|v values IH]; simpl; [reflexivity|].
  rewrite IH. reflexivity.
Qed.

Lemma CompositeKeyFn_Ok (keys : list string) (element : dict)
    (values : list string) :
  Forall2 (fun k v => element !! Some k = Some (VStr v)) keys values ->
  Beam.CompositeKeyFn keys element = Ok [(join "-" values, element)].
Proof.
  intros H. unfold Beam.CompositeKeyFn.
  assert (mapM (getitem element) keys = Ok (map VStr values)) as ->.
  { apply mapM_Ok. induction H as [|k v keys values Hk _ IH]; simpl.
    - constructor.
    - constructor; [|exact IH]. unfold getitem. rewrite Hk. reflexivity. }
  simpl. unfold py_join. rewrite mapM_as_str. reflexivity.
Qed.

Lemma CompositeKeyFn_inv (keys : list string) (element : dict)
    (out : list (string * dict)) :
  Beam.CompositeKeyFn keys element = Ok out ->
  exists values,
    Forall2 (fun k v => element !! Some k = Some (VStr v)) keys values /\
    out = [(join "-" values, element)].
Proof.
  unfold Beam.CompositeKeyFn. intros H.
  apply bind_Ok in H as (vals & Hvals & H).
  apply bind_Ok in H as (ck & Hck & [= <-]).
  unfold py_join in Hck. apply fmap_Ok in Hck as (values & Hvalues & ->).
  exists values. split; [|reflexivity].
  apply mapM_Ok in Hvals. apply mapM_Ok in Hvalues.
  revert values Hvalues.
  induction Hvals as [|k v keys vals Hk _ IH]; intros values Hvalues.
  - inversion Hvalues. constructor.
  - inversion Hvalues as [|? s ? values' Hs Hrest]; subst.
    constructor; [|apply IH, Hrest].
    unfold getitem in Hk. destruct (element !! Some k) as [w|]; [|discriminate].
    injection Hk as ->. destruct v; try discriminate.
    injection Hs as ->. reflexivity.
Qed.

(** C10: in the Beam pipeline the composite key of a record is the join
    of its grouping values with "-"; when none of these values holds a
    "-", splitting the key gives the values back, and the grouping
    columns of the output row equal the record's values exactly under
    that condition. *)
Theorem C10_composite_key_roundtrip :
  forall (keys : list string) (element : dict) (values : list string),
    keys ∈ Beam.group_by_columns ->
    Forall2 (fun k v => element !! Some k = Some (VStr v)) keys values ->
    Beam.CompositeKeyFn keys element = Ok [(join "-" values, element)] /\
    (Forall (fun v => has_char "-" v = false) values ->
     split "-" (join "-" values) = values) /\
    forall agg : Beam.aggregate,
      Beam.agg_key agg = join "-" values ->
      exists row, Beam.PrepareOutputData keys agg = Ok [row] /\
        ((forall k, k ∈ keys -> row !! Some k = element !! Some k) <->
         Forall (fun v => has_char "-" v = false) values).
Proof.
  intros keys element values Hkeys Hvals.
  destruct (group_by_columns_wf keys Hkeys) as (Hnd & Hsub & Hne).
  pose proof (Forall2_length _ _ _ Hvals) as Hlen.
  split; [apply CompositeKeyFn_Ok, Hvals|]. split.
  - intros Hno. apply split_join; [|exact Hno].
    destruct values; [|discriminate]. destruct keys; [contradiction|discriminate].
  - intros agg Hkey.
    destruct (PrepareOutputData_spec keys agg Hnd Hsub) as (row & Hrow & Hin & _).
    { rewrite Hkey, Hlen. apply split_join_length. }
    exists row. split; [exact Hrow|].
    rewrite <- (take_split_join "-" values). rewrite <- Hkey, <- Hlen.
    split.
    + intros Heq. apply list_eq. intros j.
      destruct (keys !! j) as [k|] eqn:Hj.
      * destruct (Forall2_lookup_l _ _ _ _ _ Hvals Hj) as (v & Hv & Hkv).
        assert (k ∈ keys) as Hk by (eapply list_elem_of_lookup_2, Hj).
        specialize (Heq k Hk). rewrite (Hin j k Hj), Hkv in Heq.
        rewrite lookup_take_lt by (apply lookup_lt_Some in Hj; exact Hj).
        rewrite Hv.
        destruct (split "-" (Beam.agg_key agg) !! j); simpl in Heq; congruence.
      * apply lookup_ge_None in Hj.
        rewrite lookup_take_ge by exact Hj.
        symmetry. apply lookup_ge_None. lia.
    + intros Heq k Hk. apply list_elem_of_lookup in Hk as [j Hj].
      destruct (Forall2_lookup_l _ _ _ _ _ Hvals Hj) as (v & Hv & Hkv).
      rewrite (Hin j k Hj), Hkv. rewrite <- Heq in Hv.
      rewrite lookup_take_lt in Hv by (apply lookup_lt_Some in Hj; exact Hj).
      rewrite Hv. reflexivity.
Qed.


Lemma C10_composite_key_roundtrip_witness :
  Beam.CompositeKeyFn ["counter_party"; "tier"]
    (joined "CP1" "LE1" "5" "100" "ARAP" "T1")
  = Ok [("CP1-T1", joined "CP1" "LE1" "5" "100" "ARAP" "T1")].
Proof.
  apply (C10_composite_key_roundtrip ["counter_party"; "tier"]
           (joined "CP1" "LE1" "5" "100" "ARAP" "T1") ["CP1"; "T1"]).
  - apply (bool_decide_unpack _). vm_compute. reflexivity.
  - repeat constructor.
Defined.

(** ** The writer *)

Lemma ParDo_Ok {A B : Type} (fn : A -> result (list B)) (pcoll : list A)
    (out : list B) :
  Beam.ParDo fn pcoll = Ok out <->
  exists outs, Forall2 (fun x ys => fn x = Ok ys) pcoll outs /\ out = mjoin outs.
Proof.
  unfold Beam.ParDo. rewrite fmap_Ok. split.
  - intros (outs & H & ->). exists outs. split; [apply mapM_Ok, H | reflexivity].
  - intros (outs & H & ->). exists outs. split; [apply mapM_Ok, H | reflexivity].
Qed.

Lemma SaveOutputToCsv_Ok (file : Beam.csv_file) (element : list dict)
    (file' : Beam.csv_file) :
  Beam.SaveOutputToCsv file element = Ok file' <->
  exists rows, mapM cells element = Ok rows /\
    file' = (if decide (file = []) then [Beam.header_row] else file) ++ rows.
Proof.
  unfold Beam.SaveOutputToCsv. rewrite bind_Ok. split.
  - intros (rows & H & [= <-]). eauto.
  - intros (rows & H & ->). eauto.
Qed.

Lemma PrepareOutputData_max (keys : list string) (agg : Beam.aggregate)
    (out : list dict) :
  Beam.PrepareOutputData keys agg = Ok out ->
  Forall (fun row => row !! Some "max(rating by counterparty)"
                     = Some (VInt (Beam.max_rating agg))) out.
Proof.
  unfold Beam.PrepareOutputData. intros H.
  apply bind_Ok in H as (d & _ & [= <-]).
  constructor; [|constructor].
  rewrite lookup_insert_ne by discriminate.
  rewrite lookup_insert_ne by discriminate.
  apply lookup_insert_eq.
Qed.

Lemma cells_not_header (row : dict) (cs : list val) (m : Z) :
  row !! Some "max(rating by counterparty)" = Some (VInt m) ->
  cells row = Ok cs -> cs <> Beam.header_row.
Proof.
  intros Hm Hcs ->. unfold cells in Hcs. apply mapM_Ok in Hcs.
  pose proof (Forall2_lookup_lr _ _ _ 3%nat
                "max(rating by counterparty)"
                (VStr "max(rating by counterparty)") Hcs eq_refl eq_refl) as H.
  unfold getitem in H. rewrite Hm in H. discriminate.
Qed.

(** The rows a branch computes never spell the header. *)
Lemma output_rows_not_header (keys : list string) (merged out : list dict)
    (rows : list (list val)) :
  Beam.output_rows keys merged = Ok out ->
  mapM cells out = Ok rows ->
  Beam.header_row ∉ rows.
Proof.
  unfold Beam.output_rows. intros H Hrows Hin.
  apply bind_Ok in H as (aggs & _ & H).
  apply ParDo_Ok in H as (outs & Houts & ->).
  assert (Forall (fun row => exists m,
            row !! Some "max(rating by counterparty)" = Some (VInt m))
            (mjoin outs)) as Hall.
  { clear Hrows Hin. induction Houts as [|agg ys aggs outs Hy _ IH]; simpl.
    - constructor.
    - apply Forall_app. split; [|exact IH].
      eapply Forall_impl; [apply (PrepareOutputData_max _ _ _ Hy)|].
      simpl. eauto. }
  apply mapM_Ok in Hrows.
  apply list_elem_of_lookup in Hin as [i Hi].
  destruct (Forall2_lookup_r _ _ _ _ _ Hrows Hi) as (row & Hrow & Hcs).
  rewrite Forall_lookup in Hall. destruct (Hall i row Hrow) as [m Hm].
  exact (cells_not_header row _ m Hm Hcs eq_refl).
Qed.

Lemma run_branches_Ok (merged : list dict) (schedule : list (list string)) :
  forall (file file' : Beam.csv_file),
    Beam.run_branches merged schedule file = Ok file' ->
    exists written : list (list (list val)),
      Forall2 (fun keys rows => exists out,
                 Beam.output_rows keys merged = Ok out /\
                 mapM cells out = Ok rows) schedule written /\
      file' = (if decide (file = []) then
                 match schedule with [] => [] | _ => [Beam.header_row] end
               else file) ++ mjoin written.
Proof.
  induction schedule as [|keys rest IH]; intros file file' H; simpl in H.
  - injection H as <-. exists []. split; [constructor|].
    simpl. destruct (decide (file = [])) as [->|_]; [reflexivity|].
    symmetry. apply app_nil_r.
  - apply bind_Ok in H as (file1 & H1 & H).
    unfold Beam.branch in H1. apply bind_Ok in H1 as (out & Hout & H1).
    apply SaveOutputToCsv_Ok in H1 as (rows & Hrows & ->).
    destruct (IH _ _ H) as (written & Hw & ->).
    exists (rows :: written). split.
    + constructor; [eauto | exact Hw].
    + simpl. rewrite app_assoc. f_equal.
      destruct (decide (_ ++ rows = [])) as [Heq|_]; [|reflexivity].
      exfalso. apply app_eq_nil in Heq as [Heq _].
      destruct (decide (file = [])); [discriminate | contradiction].
Qed.

(** C9: the writer appends to the file the cells of its rows under the
    six-column header and puts the header first exactly when the file is
    empty; over the grouping runs, in whatever order, a file that starts
    empty ends with the header once, followed by the rows of every run,
    and a file that starts non-empty only gains data rows. *)
Theorem C9_writer_header_iff_empty :
  (forall (file : Beam.csv_file) (element : list dict),
     Forall (fun row : dict =>
               forall h, h ∈ Beam.headers -> is_Some (row !! Some h)) element ->
     exists rows,
       Beam.SaveOutputToCsv file element
       = Ok ((if decide (file = []) then [Beam.header_row] else file) ++ rows) /\
       Forall2 (fun (row : dict) cs =>
                  Forall2 (fun h c => row !! Some h = Some c) Beam.headers cs)
               element rows) /\
  (forall (merged : list dict) (schedule : list (list string))
          (file file' : Beam.csv_file),
     schedule <> [] ->
     Beam.run_branches merged schedule file = Ok file' ->
     exists written : list (list (list val)),
       Forall2 (fun keys rows => exists out,
                  Beam.output_rows keys merged = Ok out /\
                  mapM cells out = Ok rows) schedule written /\
       (Beam.header_row ∉ mjoin written) /\
       file' = (if decide (file = []) then [Beam.header_row] else file)
               ++ mjoin written).
Proof.
  split.
  - intros file element Hall.
    assert (exists rows, mapM cells element = Ok rows /\
              Forall2 (fun (row : dict) cs =>
                 Forall2 (fun h c => row !! Some h = Some c) Beam.headers cs)
                 element rows) as (rows & Hrows & Hcells).
    { induction Hall as [|row element Hrow _ (rows & Hrows & IH)]; simpl.
      - exists []. split; [reflexivity | constructor].
      - assert (exists cs, cells row = Ok cs /\
                  Forall2 (fun h c => row !! Some h = Some c) Beam.headers cs)
          as (cs & Hcs & Hlk).
        { unfold cells. revert Hrow. generalize Beam.headers as hs.
          induction hs as [|h hs IHhs]; intros Hrow; simpl.
          - exists []. split; [reflexivity | constructor].
          - destruct (Hrow h) as [c Hc]; [left|].
            destruct IHhs as (cs & Hcs & Hlk).
            { intros h' Hh'. apply Hrow. right. exact Hh'. }
            exists (c :: cs).
            assert (getitem row h = Ok c) as ->
              by (unfold getitem; rewrite Hc; reflexivity).
            simpl. rewrite Hcs. split; [reflexivity|]. constructor; assumption. }
        exists (cs :: rows). rewrite Hcs. simpl. rewrite Hrows.
        split; [reflexivity|]. constructor; assumption. }
    exists rows. split; [|exact Hcells].
    apply SaveOutputToCsv_Ok. exists rows. split; [exact Hrows | reflexivity].
  - intros merged schedule file file' Hne H.
    destruct (run_branches_Ok merged schedule file file' H) as (written & Hw & ->).
    exists written. split; [exact Hw|]. split.
    + clear H Hne. induction Hw as [|keys rows schedule written (out & Ho & Hr) _ IH].
      * apply not_elem_of_nil.
      * simpl. rewrite elem_of_app. intros [Hin|Hin]; [|exact (IH Hin)].
        exact (output_rows_not_header keys merged out rows Ho Hr Hin).
    + destruct schedule; [contradiction | reflexivity].
Qed.

Lemma C9_writer_header_iff_empty_witness :
  (exists rows,
     Beam.SaveOutputToCsv [] [ex_row] = Ok ([Beam.header_row] ++ rows)) /\
  (exists written : list (list (list val)),
     (Beam.header_row ∉ mjoin written) /\
     ex_report = [Beam.header_row] ++ mjoin written).
Proof.
  split.
  - destruct (proj1 C9_writer_header_iff_empty [] [ex_row]) as (rows & Hrows & _).
    + constructor; [|constructor]. intros h Hh.
      unfold Beam.headers in Hh.
      repeat (apply elem_of_cons in Hh as [->|Hh]; [eexists; reflexivity|]).
      apply elem_of_nil in Hh. contradiction.
    + exists rows. exact Hrows.
  - destruct (proj2 C9_writer_header_iff_empty ex_merged Beam.group_by_columns
                [] ex_report) as (written & _ & Hnot & Hfile).
    + discriminate.
    + vm_compute. reflexivity.
    + exists written. split; [exact Hnot | exact Hfile].
Defined.

Example merged_example : Beam.merged_data exA exB = Ok ex_merged.
Proof. vm_compute. reflexivity. Qed.

(** ** Grouping by key *)

Section Grouping.
Context {K V : Type} `{EqDecision K}.

Lemma values_of_snoc (k k' : K) (v : V) (l : list (K * V)) :
  values_of k' (l ++ [(k, v)]) =
  values_of k' l ++ (if decide (k = k') then [v] else []).
Proof.
  unfold values_of. rewrite filter_app, map_app. f_equal.
  rewrite filter_cons, filter_nil. simpl.
  destruct (decide (k = k')); reflexivity.
Qed.

Lemma values_of_nil (k : K) (l : list (K * V)) :
  (forall v, (k, v) ∉ l) -> values_of k l = [].
Proof.
  unfold values_of. induction l as [|[k' v'] l IH]; intros Hk; [reflexivity|].
  rewrite filter_cons. simpl. destruct (decide (k' = k)) as [->|_].
  - exfalso. apply (Hk v'). left.
  - apply IH. intros v Hv. apply (Hk v). right. exact Hv.
Qed.

Lemma GroupByKey_snoc (l : list (K * V)) (k : K) (v : V) :
  Beam.GroupByKey (l ++ [(k, v)]) = Beam.group_insert k v (Beam.GroupByKey l).
Proof. unfold Beam.GroupByKey. rewrite foldl_app. reflexivity. Qed.

Lemma group_insert_flat (k : K) (v : V) (groups : list (K * list V)) :
  flat (Beam.group_insert k v groups) ≡ₚ flat groups ++ [(k, v)].
Proof.
  unfold flat. induction groups as [|[k' vs] groups IH]; simpl.
  - reflexivity.
  - destruct (decide (k = k')) as [->|_]; simpl.
    + rewrite map_app. simpl. rewrite <- !app_assoc.
      apply Permutation_app_head, Permutation_app_comm.
    + rewrite IH. rewrite app_assoc. reflexivity.
Qed.

Lemma group_insert_keys (k : K) (v : V) (groups : list (K * list V)) :
  map fst (Beam.group_insert k v groups) =
  if decide (k ∈ map fst groups) then map fst groups
  else map fst groups ++ [k].
Proof.
  induction groups as [|[k' vs] groups IH]; simpl.
  - destruct (decide (k ∈ [])) as [Hin|_]; [|reflexivity].
    apply elem_of_nil in Hin. contradiction.
  - destruct (decide (k = k')) as [->|Hne]; simpl.
    + destruct (decide (k' ∈ k' :: map fst groups)) as [_|Hn]; [reflexivity|].
      exfalso. apply Hn. left.
    + rewrite IH.
      destruct (decide (k ∈ map fst groups)) as [Hin|Hn];
        destruct (decide (k ∈ k' :: map fst groups)) as [Hin'|Hn'];
        try reflexivity.
      * exfalso. apply Hn'. right. exact Hin.
      * exfalso. apply elem_of_cons in Hin' as [->|Hin']; contradiction.
Qed.

(** With distinct keys, the group of [k] gains [v] and nothing else
    changes. *)
Lemma group_insert_elem_NoDup (k : K) (v : V) (groups : list (K * list V))
    (k' : K) (vs' : list V) :
  NoDup (map fst groups) ->
  (k', vs') ∈ Beam.group_insert k v groups ->
  (k' <> k /\ (k', vs') ∈ groups) \/
  (k' = k /\ (k ∉ map fst groups) /\ vs' = [v]) \/
  (k' = k /\ exists vs, (k, vs) ∈ groups /\ vs' = vs ++ [v]).
Proof.
  induction groups as [|[k0 vs0] groups IH]; simpl; intros Hnd.
  - intros Hin. apply list_elem_of_singleton in Hin. injection Hin as -> ->.
    right. left. split; [reflexivity|]. split; [apply not_elem_of_nil | reflexivity].
  - apply NoDup_cons in Hnd as [Hk0 Hnd].
    destruct (decide (k = k0)) as [->|Hne].
    + intros Hin. apply elem_of_cons in Hin as [[= -> ->]|Hin].
      * right. right. split; [reflexivity|]. exists vs0. split; [left | reflexivity].
      * left. split; [|right; exact Hin].
        intros ->. apply Hk0. apply list_elem_of_fmap. exists (k0, vs'). split; [reflexivity | exact Hin].
    + intros Hin. apply elem_of_cons in Hin as [[= -> ->]|Hin].
      * left. split; [congruence | left].
      * destruct (IH Hnd Hin) as [[Hk' Hg]|[(-> & Hnot & ->)|(-> & vs & Hg & Hvs)]].
        -- left. split; [exact Hk' | right; exact Hg].
        -- right. left. split; [reflexivity|]. split; [|reflexivity].
           simpl. apply not_elem_of_cons. split; [exact Hne | exact Hnot].
        -- right. right. split; [reflexivity|]. exists vs. split; [right; exact Hg | exact Hvs].
Qed.

(** The groups hold every keyed value once, under distinct keys, and
    the group of a key holds its values in their order of arrival. *)
Lemma GroupByKey_spec (l : list (K * V)) :
  NoDup (map fst (Beam.GroupByKey l)) /\
  flat (Beam.GroupByKey l) ≡ₚ l /\
  forall k vs, (k, vs) ∈ Beam.GroupByKey l -> vs = values_of k l /\ vs <> [].
Proof.
  induction l as [|[k v] l (Hnd & Hperm & Hgrp)] using rev_ind.
  - split; [constructor|]. split; [reflexivity|].
    intros k vs Hin. apply elem_of_nil in Hin. contradiction.
  - rewrite GroupByKey_snoc. split; [|split].
    + rewrite group_insert_keys.
      destruct (decide (k ∈ map fst (Beam.GroupByKey l))) as [_|Hn]; [exact Hnd|].
      apply NoDup_app. split; [exact Hnd|]. split.
      * intros x Hx Hx'. apply list_elem_of_singleton in Hx'. subst. contradiction.
      * apply NoDup_singleton.
    + rewrite group_insert_flat, Hperm. reflexivity.
    + intros k' vs' Hin. rewrite values_of_snoc.
      apply group_insert_elem_NoDup in Hin; [|exact Hnd].
      destruct Hin as [[Hk' Hg]|[(-> & Hnot & ->)|(-> & vs & Hg & ->)]].
      * destruct (Hgrp _ _ Hg) as [-> Hne].
        destruct (decide (k = k')); [congruence|].
        rewrite app_nil_r. split; [reflexivity | exact Hne].
      * destruct (decide (k = k)); [|contradiction].
        rewrite values_of_nil; [split; [reflexivity | discriminate]|].
        intros v' Hv'. apply Hnot.
        assert ((k, v') ∈ flat (Beam.GroupByKey l)) as Hf by (rewrite Hperm; exact Hv').
        unfold flat in Hf. apply list_elem_of_bind in Hf as ([k0 vs0] & Hin0 & Hg0).
        simpl in Hin0. apply list_elem_of_fmap in Hin0 as (v0 & [= -> ->] & _).
        apply list_elem_of_fmap. exists (k0, vs0). split; [reflexivity | exact Hg0].
      * destruct (Hgrp _ _ Hg) as [-> Hne].
        destruct (decide (k = k)); [|contradiction].
        split; [reflexivity|]. intros Heq. apply app_eq_nil in Heq as [_ Heq]. discriminate.
Qed.

(** Every keyed value sits in the group of its key. *)
Lemma GroupByKey_elem (l : list (K * V)) (k : K) (v : V) :
  (k, v) ∈ l -> exists vs, (k, vs) ∈ Beam.GroupByKey l /\ v ∈ vs.
Proof.
  intros Hin. destruct (GroupByKey_spec l) as (_ & Hperm & _).
  rewrite <- Hperm in Hin. unfold flat in Hin.
  apply list_elem_of_bind in Hin as ([k0 vs0] & Hin0 & Hg0).
  simpl in Hin0. apply list_elem_of_fmap in Hin0 as (v0 & [= -> ->] & Hv0).
  eauto.
Qed.

(** The sizes of the groups add up to the number of keyed values. *)
Lemma GroupByKey_length (l : list (K * V)) :
  sum_list (map (fun g : K * list V => length g.2) (Beam.GroupByKey l))
  = length l.
Proof.
  destruct (GroupByKey_spec l) as (_ & Hperm & _).
  rewrite <- (Permutation_length Hperm). clear Hperm. unfold flat.
  induction (Beam.GroupByKey l) as [|[k vs] groups IH]; simpl; [reflexivity|].
  rewrite length_app, length_map, IH. reflexivity.
Qed.

End Grouping.

(** ** The aggregates of a partition *)

Lemma foldl_add (l : list Z) (a : Z) : foldl Z.add a l = a + Zsum l.
Proof.
  revert a. induction l as [|x l IH]; intros a; simpl; [lia|].
  rewrite IH. unfold Zsum. lia.
Qed.

Lemma py_sum_Zsum (l : list Z) : py_sum l = Zsum l.
Proof. unfold py_sum. rewrite foldl_add. lia. Qed.

Lemma foldl_max_spec (l : list Z) (a : Z) :
  foldl Z.max a l ∈ a :: l /\ forall y, y ∈ a :: l -> y <= foldl Z.max a l.
Proof.
  revert a. induction l as [|x l IH]; intros a; simpl.
  - split; [left|]. intros y Hy. apply list_elem_of_singleton in Hy. lia.
  - destruct (IH (Z.max a x)) as [Hin Hub]. split.
    + apply elem_of_cons in Hin as [Hin|Hin]; [|right; right; exact Hin].
      rewrite Hin. destruct (Z.max_spec a x) as [[_ ->]|[_ ->]];
        [right; left | left].
    + intros y Hy.
      assert (Z.max a x <= foldl Z.max (Z.max a x) l) by (apply Hub; left).
      apply elem_of_cons in Hy as [->|Hy]; [lia|].
      apply elem_of_cons in Hy as [->|Hy]; [lia|].
      apply Hub. right. exact Hy.
Qed.

Lemma py_max_spec (l : list Z) :
  l <> [] ->
  exists m, py_max l = Ok m /\ m ∈ l /\ forall y, y ∈ l -> y <= m.
Proof.
  destruct l as [|x l]; [contradiction|]. intros _.
  exists (foldl Z.max x l). split; [reflexivity|]. apply foldl_max_spec.
Qed.

Lemma ratings_views (data : list dict) (ms : list member) :
  Forall2 views data ms -> Beam.ratings data = Ok (map m_rating ms).
Proof.
  intros H. apply mapM_Ok.
  induction H as [|x m data ms (Hr & _ & _) _ IH]; simpl; constructor; assumption.
Qed.

Lemma values_where_views (tag : string) (data : list dict) (ms : list member) :
  Forall2 views data ms -> Beam.values_where tag data = Ok (values_with tag ms).
Proof.
  unfold values_with.
  induction 1 as [|x m data ms (_ & Hs & Hv) _ IH]; simpl; [reflexivity|].
  rewrite Hs. simpl. rewrite filter_cons.
  destruct (decide (m_status m = VStr tag)) as [_|_]; [|exact IH].
  unfold value_of in Hv. apply bind_Ok in Hv as (v & -> & Hv). simpl.
  rewrite Hv. simpl. rewrite IH. reflexivity.
Qed.

Lemma ExtractAndSum_spec (key : string) (data : list dict) (ms : list member) :
  data <> [] -> Forall2 views data ms ->
  exists agg,
    Beam.ExtractAndSum (key, data) = Ok [agg] /\
    Beam.agg_key agg = key /\
    Beam.total agg = Z.of_nat (length data) /\
    Beam.max_rating agg ∈ map m_rating ms /\
    (forall m, m ∈ ms -> m_rating m <= Beam.max_rating agg) /\
    Beam.sum_arap agg = Zsum (values_with "ARAP" ms) /\
    Beam.sum_accr agg = Zsum (values_with "ACCR" ms).
Proof.
  intros Hne Hv. unfold Beam.ExtractAndSum.
  rewrite (ratings_views data ms Hv). simpl.
  destruct (py_max_spec (map m_rating ms)) as (mx & Hmx & Hin & Hub).
  { destruct Hv; [contradiction | discriminate]. }
  rewrite Hmx. simpl.
  rewrite !(values_where_views _ data ms Hv). simpl.
  eexists. split; [reflexivity|]. simpl.
  split; [reflexivity|]. split; [reflexivity|]. split; [exact Hin|].
  split; [|split; apply py_sum_Zsum].
  intros m Hm. apply Hub. apply list_elem_of_fmap. eauto.
Qed.

Lemma series_max_spec (l : list Z) :
  l <> [] ->
  exists m, Pandas.series_max l = VInt m /\ m ∈ l /\ forall y, y ∈ l -> y <= m.
Proof.
  destruct l as [|x l]; [contradiction|]. intros _.
  exists (foldl Z.max x l). split; [reflexivity|]. apply foldl_max_spec.
Qed.

(** C2: on a non-empty partition whose records carry an integer rating,
    a status and an integer value, the Beam aggregator yields the
    partition size, the largest rating, and the exact sums of the values
    of the members with status ARAP and with status ACCR; both programs
    give for the example the one partition LE1, CP1, T1 with total 2,
    largest rating 5 and sums 100 and 50.  For two ARAP records of value
    9223372036854775807 the Beam aggregator yields their sum,
    18446744073709551614, and the pandas aggregation, which adds in
    int64, yields -2. *)
Theorem C2_aggregates :
  (forall (key : string) (data : list dict) (ms : list member),
     data <> [] -> Forall2 views data ms ->
     exists agg,
       Beam.ExtractAndSum (key, data) = Ok [agg] /\
       Beam.total agg = Z.of_nat (length data) /\
       Beam.max_rating agg ∈ map m_rating ms /\
       (forall m, m ∈ ms -> m_rating m <= Beam.max_rating agg) /\
       Beam.sum_arap agg = Zsum (values_with "ARAP" ms) /\
       Beam.sum_accr agg = Zsum (values_with "ACCR" ms)) /\
  (merged ← Beam.merged_data exA exB;
   Beam.aggregates ["legal_entity"; "counter_party"; "tier"] merged)
  = Ok [Beam.Aggregate "LE1-CP1-T1" 5 100 50 2] /\
  (rows ← Pandas.custom_groupby_and_aggregate
            (Pandas.merge ex_dataset1 ex_dataset2)
            ["legal_entity"; "counter_party"; "tier"];
   mapM cells rows)
  = Ok [[VStr "LE1"; VStr "CP1"; VStr "T1"; VInt 5; VInt 100; VInt 50]] /\
  (merged ← Beam.merged_data exA_large exB;
   Beam.aggregates ["legal_entity"; "counter_party"; "tier"] merged)
  = Ok [Beam.Aggregate "LE1-CP1-T1" 5 18446744073709551614 0 2] /\
  (rows ← Pandas.custom_groupby_and_aggregate
            (Pandas.merge ex_dataset1_large ex_dataset2)
            ["legal_entity"; "counter_party"; "tier"];
   mapM cells rows)
  = Ok [[VStr "LE1"; VStr "CP1"; VStr "T1"; VInt 5; VInt (-2); VInt 0]].
Proof.
  split; [|split; [|split; [|split]]]; try (vm_compute; reflexivity).
  intros key data ms Hne Hv.
  destruct (ExtractAndSum_spec key data ms Hne Hv)
    as (agg & H1 & _ & H2 & H3 & H4 & H5 & H6).
  exists agg. repeat split; assumption.
Qed.

Lemma C2_aggregates_witness :
  exists agg,
    Beam.ExtractAndSum ("LE1-CP1-T1", ex_merged) = Ok [agg] /\
    Beam.total agg = 2 /\
    Beam.max_rating agg ∈ [5; 3] /\
    Beam.sum_arap agg = 100 /\
    Beam.sum_accr agg = 50.
Proof.
  destruct (proj1 C2_aggregates "LE1-CP1-T1" ex_merged
              [Member 5 (VStr "ARAP") 100; Member 3 (VStr "ACCR") 50])
    as (agg & H1 & H2 & H3 & _ & H5 & H6).
  - discriminate.
  - repeat constructor.
  - exists agg. repeat split; assumption.
Defined.

(** ** The totals of a grouping *)

Lemma ExtractAndSum_inv (key : string) (data : list dict)
    (out : list Beam.aggregate) :
  Beam.ExtractAndSum (key, data) = Ok out ->
  exists agg, out = [agg] /\ Beam.agg_key agg = key /\
    Beam.total agg = Z.of_nat (length data).
Proof.
  unfold Beam.ExtractAndSum. intros H.
  apply bind_Ok in H as (rs & _ & H).
  apply bind_Ok in H as (mx & _ & H).
  apply bind_Ok in H as (arap & _ & H).
  apply bind_Ok in H as (accr & _ & [= <-]).
  eexists. split; [reflexivity|]. split; reflexivity.
Qed.

Lemma ParDo_CompositeKeyFn_length (keys : list string) (merged : list dict)
    (keyed : list (string * dict)) :
  Beam.ParDo (Beam.CompositeKeyFn keys) merged = Ok keyed ->
  map snd keyed = merged.
Proof.
  intros H. apply ParDo_Ok in H as (outs & Houts & ->).
  induction Houts as [|x ys merged outs Hx _ IH]; simpl; [reflexivity|].
  apply CompositeKeyFn_inv in Hx as (values & _ & ->).
  simpl. rewrite IH. reflexivity.
Qed.

Lemma Zsum_app (l l' : list Z) : Zsum (l ++ l') = Zsum l + Zsum l'.
Proof. unfold Zsum. induction l as [|x l IH]; simpl; lia. Qed.

Lemma ParDo_ExtractAndSum_total (groups : list (string * list dict))
    (aggs : list Beam.aggregate) :
  Beam.ParDo Beam.ExtractAndSum groups = Ok aggs ->
  Zsum (map Beam.total aggs)
  = Z.of_nat (sum_list (map (fun g : string * list dict => length g.2) groups)).
Proof.
  intros H. apply ParDo_Ok in H as (outs & Houts & ->).
  induction Houts as [|[k data] ys groups outs Hy _ IH]; simpl; [reflexivity|].
  apply ExtractAndSum_inv in Hy as (agg & -> & _ & Ht).
  simpl in *. unfold Zsum in *. simpl. rewrite IH, Ht. lia.
Qed.

Lemma aggregates_total (keys : list string) (merged : list dict)
    (aggs : list Beam.aggregate) :
  Beam.aggregates keys merged = Ok aggs ->
  Zsum (map Beam.total aggs) = Z.of_nat (length merged).
Proof.
  unfold Beam.aggregates. intros H.
  apply bind_Ok in H as (keyed & Hkeyed & H).
  apply ParDo_ExtractAndSum_total in H. rewrite H. f_equal.
  rewrite map_map. simpl.
  rewrite <- (ParDo_CompositeKeyFn_length keys merged keyed Hkeyed).
  rewrite length_map.
  rewrite <- (length_map (fun x : string * dict => (x.1, x)) keyed).
  rewrite <- GroupByKey_length. unfold Beam.GroupBy.
  f_equal. apply map_ext. intros [k vs]. simpl. apply length_map.
Qed.

Lemma cell_aggr_column (r : Pandas.row) (c : string) :
  c ∈ Pandas.aggr_columns ->
  Pandas.cell r c = Ok (Pandas.text (attribute c r)).
Proof.
  unfold Pandas.aggr_columns. rewrite !elem_of_cons, elem_of_nil.
  intros [->|[->|[->|[]]]]; reflexivity.
Qed.

Lemma pandas_group_by_columns_wf (group_column : list string) :
  group_column ∈ Pandas.group_by_columns ->
  NoDup group_column /\ group_column ⊆ Pandas.aggr_columns /\ group_column <> [].
Proof.
  unfold Pandas.group_by_columns. rewrite !elem_of_cons, elem_of_nil.
  intros H.
  repeat (destruct H as [->|H]); try contradiction;
    (split; [apply (bool_decide_unpack _); vm_compute; reflexivity|]);
    (split; [|discriminate]);
    intros k; unfold Pandas.aggr_columns; rewrite !elem_of_cons, !elem_of_nil;
    tauto.
Qed.

(** The frame has the grouping attributes among its columns. *)
Lemma groupby_columns_Ok (group_column : list string) :
  group_column ⊆ Pandas.aggr_columns ->
  mapM (fun c => if decide (c ∈ Pandas.columns) then Ok c else Raise KeyError)
       group_column = Ok group_column.
Proof.
  intros Hsub. apply mapM_Ok.
  induction group_column as [|c cs IH]; constructor.
  - destruct (decide (c ∈ Pandas.columns)) as [_|Hn]; [reflexivity|].
    exfalso. apply Hn. assert (c ∈ Pandas.aggr_columns) as Hc by (apply Hsub; left).
    revert Hc. unfold Pandas.aggr_columns, Pandas.columns.
    rewrite !elem_of_cons, !elem_of_nil. tauto.
  - apply IH. intros c' Hc'. apply Hsub. right. exact Hc'.
Qed.

Lemma groupby_keyed_total (df : list Pandas.row) (group_column : list string) :
  group_column ⊆ Pandas.aggr_columns ->
  exists keyed,
    mapM (fun r => k ← mapM (Pandas.cell r) group_column; Ok (k, r)) df
    = Ok keyed.
Proof.
  intros Hsub. apply mapM_total.
  apply Forall_forall. intros r _.
  destruct (mapM_total (Pandas.cell r) group_column) as [k Hk].
  - apply Forall_forall. intros c Hc.
    rewrite (cell_aggr_column r c (Hsub c Hc)). eauto.
  - rewrite Hk. simpl. eauto.
Qed.

(** Grouping a frame by grouping attributes, at least one, cannot fail. *)
Lemma groupby_total (df : list Pandas.row) (group_column : list string) :
  group_column <> [] -> group_column ⊆ Pandas.aggr_columns ->
  exists groups, Pandas.groupby df group_column = Ok groups.
Proof.
  intros Hne Hsub. unfold Pandas.groupby.
  destruct (decide (group_column = [])) as [Heq|_]; [contradiction|].
  rewrite (groupby_columns_Ok group_column Hsub). simpl.
  destruct (groupby_keyed_total df group_column Hsub) as [keyed ->].
  simpl. eauto.
Qed.

Lemma Forall_exists_Forall2 {A B : Type} (R : A -> B -> Prop) (l : list A) :
  Forall (fun x => exists y, R x y) l -> exists k, Forall2 R l k.
Proof.
  induction 1 as [|x l [y Hy] _ [k Hk]].
  - exists []. constructor.
  - exists (y :: k). constructor; assumption.
Qed.

(** On well-formed records a branch computes its aggregates. *)
Lemma aggregates_Ok (keys : list string) (merged : list dict) :
  Forall (well_formed keys) merged ->
  exists aggs, Beam.aggregates keys merged = Ok aggs.
Proof.
  intros Hwf. unfold Beam.aggregates.
  destruct (mapM_total (Beam.CompositeKeyFn keys) merged) as [outs Houts].
  { eapply Forall_impl; [exact Hwf|]. intros x [[values Hv] _].
    eexists. apply CompositeKeyFn_Ok, Hv. }
  assert (Beam.ParDo (Beam.CompositeKeyFn keys) merged = Ok (mjoin outs)) as Hk.
  { unfold Beam.ParDo. rewrite Houts. reflexivity. }
  rewrite Hk. simpl.
  pose proof (ParDo_CompositeKeyFn_length keys merged _ Hk) as Hsnd.
  unfold Beam.ParDo, Beam.GroupBy.
  destruct (GroupByKey_spec
              (map (fun x : string * dict => (x.1, x)) (mjoin outs)))
    as (_ & Hperm & Hgrp).
  destruct (mapM_total Beam.ExtractAndSum
              (map (fun group : string * list (string * dict) =>
                      (group.1, map snd group.2))
                   (Beam.GroupByKey
                      (map (fun x : string * dict => (x.1, x)) (mjoin outs)))))
    as [aggss Haggss].
  - apply Forall_forall. intros g Hg.
    apply list_elem_of_fmap in Hg as ([k vs] & -> & Hg). simpl.
    destruct (Hgrp k vs Hg) as [_ Hne].
    destruct (Forall_exists_Forall2 views (map snd vs)) as [ms Hms].
    { apply Forall_forall. intros x Hx.
      apply list_elem_of_fmap in Hx as (kx & -> & Hkx).
      assert ((k, kx) ∈ map (fun x : string * dict => (x.1, x)) (mjoin outs))
        as Hin.
      { rewrite <- Hperm. unfold flat. apply list_elem_of_bind.
        exists (k, vs). split; [|exact Hg].
        simpl. apply list_elem_of_fmap. exists kx. split; [reflexivity | exact Hkx]. }
      apply list_elem_of_fmap in Hin as (kx' & [= _ <-] & Hin).
      assert (kx.2 ∈ merged) as Hm.
      { rewrite <- Hsnd. apply list_elem_of_fmap. exists kx. split; [reflexivity | exact Hin]. }
      rewrite Forall_forall in Hwf. exact (proj2 (Hwf _ Hm)). }
    destruct (ExtractAndSum_spec k (map snd vs) ms) as (agg & Hagg & _).
    { destruct vs; [contradiction | discriminate]. }
    { exact Hms. }
    eauto.
  - rewrite Haggss. simpl. eauto.
Qed.

(** C6: in the Beam program, for each grouping key, the [total] fields
    of the aggregates of all partitions add up to the number of joined
    records, and the aggregates exist when the joined records are well
    formed.  When the legal_entity cell of one of the two joined records
    of the example is empty, the Beam program still counts both for the
    grouping key legal_entity, and the pandas script counts one: it
    drops the record without a legal_entity. *)
Theorem C6_totals_add_up :
  (forall (keys : list string) (merged : list dict) (aggs : list Beam.aggregate),
     Beam.aggregates keys merged = Ok aggs ->
     Zsum (map Beam.total aggs) = Z.of_nat (length merged)) /\
  (forall (keys : list string) (merged : list dict),
     Forall (well_formed keys) merged ->
     exists aggs,
       Beam.aggregates keys merged = Ok aggs /\
       Zsum (map Beam.total aggs) = Z.of_nat (length merged)) /\
  (merged ← Beam.merged_data exA_blank exB;
   aggs ← Beam.aggregates ["legal_entity"] merged;
   Ok (length merged, map Beam.total aggs))
  = Ok (2%nat, [1; 1]) /\
  length (Pandas.merge ex_dataset1_blank ex_dataset2) = 2%nat /\
  (groups ← Pandas.groupby (Pandas.merge ex_dataset1_blank ex_dataset2)
             ["legal_entity"];
   Ok (map (fun g => total_cell (Pandas.agg_row ["legal_entity"] g)) groups))
  = Ok [1] /\
  (rows ← Pandas.custom_groupby_and_aggregate
            (Pandas.merge ex_dataset1_blank ex_dataset2) ["legal_entity"];
   mapM cells rows)
  = Ok [[VStr "LE1"; VInt 1; VInt 1; VInt 3; VInt 0; VInt 50]].
Proof.
  split; [exact aggregates_total|]. split.
  { intros keys merged Hwf.
    destruct (aggregates_Ok keys merged Hwf) as [aggs Haggs].
    exists aggs. split; [exact Haggs|].
    exact (aggregates_total keys merged aggs Haggs). }
  repeat split; vm_compute; reflexivity.
Qed.

Lemma C6_totals_add_up_witness :
  Zsum (map Beam.total [Beam.Aggregate "LE1-CP1-T1" 5 100 50 2])
  = Z.of_nat (length ex_merged) /\
  (exists aggs,
     Beam.aggregates ["tier"; "legal_entity"] ex_merged = Ok aggs /\
     Zsum (map Beam.total aggs) = 2).
Proof.
  split.
  - apply (proj1 C6_totals_add_up ["legal_entity"; "counter_party"; "tier"]).
    vm_compute. reflexivity.
  - apply (proj1 (proj2 C6_totals_add_up) ["tier"; "legal_entity"] ex_merged).
    repeat constructor.
    + exists ["T1"; "LE1"]. repeat constructor.
    + exists (Member 5 (VStr "ARAP") 100). repeat constructor.
    + exists ["T1"; "LE1"]. repeat constructor.
    + exists (Member 3 (VStr "ACCR") 50). repeat constructor.
Defined.

(** ** The two conditional sums against the sum of all values *)

Section ConditionalSums.
Context {A : Type} (f : A -> Z) (P Q : A -> Prop).
Context `{!forall x, Decision (P x)} `{!forall x, Decision (Q x)}.
Hypothesis disjoint : forall x, P x -> Q x -> False.

Lemma conditional_sums (l : list A) :
  (forall x, x ∈ l -> ~ P x -> ~ Q x -> 0 < f x) ->
  Zsum (map f (filter P l)) + Zsum (map f (filter Q l)) <= Zsum (map f l) /\
  (Zsum (map f (filter P l)) + Zsum (map f (filter Q l)) = Zsum (map f l)
   <-> Forall (fun x => P x \/ Q x) l).
Proof.
  induction l as [|x l IH]; intros Hpos.
  - simpl. split; [lia|]. split; [constructor | reflexivity].
  - destruct IH as [Hle Hiff].
    { intros y Hy. apply Hpos. right. exact Hy. }
    rewrite !filter_cons.
    destruct (decide (P x)) as [HP|HP]; destruct (decide (Q x)) as [HQ|HQ].
    + exfalso. exact (disjoint x HP HQ).
    + unfold Zsum in *. simpl. split; [lia|]. split.
      * intros Heq. constructor; [left; exact HP|]. apply Hiff. lia.
      * intros Hall. apply Forall_cons in Hall as [_ Hall].
        apply Hiff in Hall. lia.
    + unfold Zsum in *. simpl. split; [lia|]. split.
      * intros Heq. constructor; [right; exact HQ|]. apply Hiff. lia.
      * intros Hall. apply Forall_cons in Hall as [_ Hall].
        apply Hiff in Hall. lia.
    + assert (0 < f x) as Hx by (apply Hpos; [left | exact HP | exact HQ]).
      unfold Zsum in *. simpl. split; [lia|]. split.
      * intros Heq. lia.
      * intros Hall. apply Forall_cons in Hall as [[HP'|HQ'] _]; contradiction.
Qed.
End ConditionalSums.

Lemma C8_counterexample :
  ~ (forall (key : string) (data : list dict) (ms : list member)
            (agg : Beam.aggregate),
       Forall2 views data ms ->
       Beam.ExtractAndSum (key, data) = Ok [agg] ->
       Beam.sum_arap agg + Beam.sum_accr agg <= Zsum (map m_value ms)).
Proof.
  intros H.
  specialize (H "T1" [joined "CP1" "LE1" "1" "-5" "OPEN" "T1"]
                [Member 1 (VStr "OPEN") (-5)]
                (Beam.Aggregate "T1" 1 0 0 1)).
  assert (0 + 0 <= -5) as Habs; [|lia].
  apply H.
  - repeat constructor.
  - vm_compute. reflexivity.
Qed.

(** Sums in int64: the sum of a column is the sum of its values, wrapped
    around. *)
Lemma wrap64_small (z : Z) : - 2 ^ 63 <= z < 2 ^ 63 -> Pandas.wrap64 z = z.
Proof.
  unfold Pandas.wrap64. change (2 ^ 64) with (2 ^ 63 + 2 ^ 63).
  intros H. rewrite Z.mod_small; lia.
Qed.

Lemma wrap64_add (z v : Z) :
  Pandas.wrap64 (Pandas.wrap64 z + v) = Pandas.wrap64 (z + v).
Proof.
  unfold Pandas.wrap64. f_equal.
  replace ((z + 2 ^ 63) mod 2 ^ 64 - 2 ^ 63 + v + 2 ^ 63)
    with ((z + 2 ^ 63) mod 2 ^ 64 + v) by lia.
  replace (z + v + 2 ^ 63) with (z + 2 ^ 63 + v) by lia.
  apply Zplus_mod_idemp_l.
Qed.

Lemma int64_sum_from (l : list Z) (a : Z) :
  foldl (fun acc v => Pandas.wrap64 (acc + v)) (Pandas.wrap64 a) l
  = Pandas.wrap64 (a + Zsum l).
Proof.
  revert a. induction l as [|x l IH]; intros a; simpl.
  - f_equal. unfold Zsum. simpl. lia.
  - rewrite wrap64_add, IH. f_equal. unfold Zsum. simpl. lia.
Qed.

Lemma int64_sum_spec (l : list Z) :
  Pandas.int64_sum l = Pandas.wrap64 (Zsum l).
Proof. exact (int64_sum_from l 0). Qed.

Lemma sum_where_spec (tag : string) (rs : list Pandas.row) :
  Pandas.sum_where tag rs
  = Pandas.wrap64
      (Zsum (map Pandas.value
               (filter (fun r => Pandas.status r = Some tag) rs))).
Proof. apply int64_sum_spec. Qed.

(** C8, amended: in a partition where every member whose status is
    neither ARAP nor ACCR has a positive value, the two conditional sums
    together are at most the sum of all values, and they equal it
    exactly when every member has status ARAP or ACCR; for the pandas
    script, which adds in int64, when moreover the two conditional sums
    lie in the int64 range. *)
Theorem C8_conditional_sums_bound :
  (forall (key : string) (data : list dict) (ms : list member),
     data <> [] -> Forall2 views data ms ->
     (forall m, m ∈ ms -> m_status m <> VStr "ARAP" ->
                m_status m <> VStr "ACCR" -> 0 < m_value m) ->
     exists agg,
       Beam.ExtractAndSum (key, data) = Ok [agg] /\
       Beam.sum_arap agg + Beam.sum_accr agg <= Zsum (map m_value ms) /\
       (Beam.sum_arap agg + Beam.sum_accr agg = Zsum (map m_value ms) <->
        Forall (fun m => m_status m = VStr "ARAP" \/ m_status m = VStr "ACCR") ms)) /\
  (forall rs : list Pandas.row,
     (forall r, r ∈ rs -> Pandas.status r <> Some "ARAP" ->
                Pandas.status r <> Some "ACCR" -> 0 < Pandas.value r) ->
     - 2 ^ 63 <= Zsum (map Pandas.value
                         (filter (fun r => Pandas.status r = Some "ARAP") rs))
              < 2 ^ 63 ->
     - 2 ^ 63 <= Zsum (map Pandas.value
                         (filter (fun r => Pandas.status r = Some "ACCR") rs))
              < 2 ^ 63 ->
     Pandas.sum_where "ARAP" rs + Pandas.sum_where "ACCR" rs
       <= Zsum (map Pandas.value rs) /\
     (Pandas.sum_where "ARAP" rs + Pandas.sum_where "ACCR" rs
        = Zsum (map Pandas.value rs) <->
      Forall (fun r => Pandas.status r = Some "ARAP" \/
                       Pandas.status r = Some "ACCR") rs)).
Proof.
  split.
  - intros key data ms Hne Hv Hpos.
    destruct (ExtractAndSum_spec key data ms Hne Hv)
      as (agg & Hagg & _ & _ & _ & _ & Ha & Hc).
    exists agg. split; [exact Hagg|]. rewrite Ha, Hc. unfold values_with.
    apply (conditional_sums m_value
             (fun m => m_status m = VStr "ARAP")
             (fun m => m_status m = VStr "ACCR")).
    + intros m H1 H2. rewrite H1 in H2. discriminate.
    + exact Hpos.
  - intros rs Hpos Harap Haccr. rewrite !sum_where_spec.
    rewrite (wrap64_small _ Harap), (wrap64_small _ Haccr).
    apply (conditional_sums Pandas.value
             (fun r => Pandas.status r = Some "ARAP")
             (fun r => Pandas.status r = Some "ACCR")).
    + intros r H1 H2. rewrite H1 in H2. discriminate.
    + exact Hpos.
Qed.

Lemma C8_conditional_sums_bound_witness :
  (exists agg,
     Beam.ExtractAndSum ("T1", ex_merged_open) = Ok [agg] /\
     Beam.sum_arap agg + Beam.sum_accr agg <= 157) /\
  Pandas.sum_where "ARAP" (Pandas.merge ex_dataset1 ex_dataset2)
  + Pandas.sum_where "ACCR" (Pandas.merge ex_dataset1 ex_dataset2) <= 150.
Proof.
  split.
  - destruct (proj1 C8_conditional_sums_bound "T1" ex_merged_open
                [Member 5 (VStr "ARAP") 100; Member 3 (VStr "ACCR") 50;
                 Member 4 (VStr "OPEN") 7])
      as (agg & Hagg & Hle & _).
    + discriminate.
    + repeat constructor.
    + intros m Hm H1 H2.
      apply elem_of_cons in Hm as [->|Hm]; [exfalso; apply H1; reflexivity|].
      apply elem_of_cons in Hm as [->|Hm]; [exfalso; apply H2; reflexivity|].
      apply list_elem_of_singleton in Hm as ->. simpl. lia.
    + exists agg. split; [exact Hagg | exact Hle].
  - apply (proj2 C8_conditional_sums_bound
             (Pandas.merge ex_dataset1 ex_dataset2)).
    + intros r Hr H1 H2. exfalso.
      apply elem_of_cons in Hr as [->|Hr]; [apply H1; reflexivity|].
      apply list_elem_of_singleton in Hr as ->. apply H2. reflexivity.
    + vm_compute. split; [discriminate | reflexivity].
    + vm_compute. split; [discriminate | reflexivity].
Defined.

(** ** The join *)

Lemma values_of_app {K V : Type} `{EqDecision K} (k : K) (l l' : list (K * V)) :
  values_of k (l ++ l') = values_of k l ++ values_of k l'.
Proof. unfold values_of. rewrite filter_app, map_app. reflexivity. Qed.

Lemma values_of_tag {K V W : Type} `{EqDecision K} (f : V -> W) (k : K)
    (l : list (K * V)) :
  values_of k (map (fun kv : K * V => (kv.1, f kv.2)) l) = map f (values_of k l).
Proof.
  unfold values_of. induction l as [|[k' v] l IH]; [reflexivity|].
  simpl. rewrite !filter_cons. simpl.
  destruct (decide (k' = k)); simpl; rewrite IH; reflexivity.
Qed.

Lemma omap_lefts {V : Type} (l l' : list V) :
  omap (fun t : V + V => match t with inl v => Some v | inr _ => None end)
       (map inl l ++ map inr l') = l /\
  omap (fun t : V + V => match t with inl _ => None | inr v => Some v end)
       (map inl l ++ map inr l') = l'.
Proof.
  split.
  - induction l as [|x l IH]; simpl; [|f_equal; exact IH].
    induction l' as [|y l' IH]; simpl; [reflexivity | exact IH].
  - induction l as [|x l IH]; simpl; [|exact IH].
    induction l' as [|y l' IH]; simpl; [reflexivity | f_equal; exact IH].
Qed.

(** Each element of the co-grouping holds, for its key, the records of
    either dataset in their order of arrival. *)
Lemma CoGroupByKey_elem {K V : Type} `{EqDecision K} (d1 d2 : list (K * V))
    (k : K) (ds1 ds2 : list V) :
  (k, (ds1, ds2)) ∈ Beam.CoGroupByKey d1 d2 ->
  ds1 = values_of k d1 /\ ds2 = values_of k d2.
Proof.
  unfold Beam.CoGroupByKey. intros Hin.
  apply list_elem_of_fmap in Hin as ([k' tvs] & Heq & Hin). simpl in Heq.
  injection Heq as -> -> ->.
  destruct (GroupByKey_spec
              (map (fun kv : K * V => (kv.1, inl kv.2)) d1 ++
               map (fun kv : K * V => (kv.1, inr kv.2)) d2)) as (_ & _ & Hg).
  destruct (Hg _ _ Hin) as [-> _].
  rewrite values_of_app.
  rewrite (values_of_tag (@inl V V)), (values_of_tag (@inr V V)).
  apply omap_lefts.
Qed.

Lemma first_tier_head (k : val) (d2 : list (val * dict)) :
  first_tier k d2 = head (values_of k d2) ≫= (fun b : dict => b !! Some "tier").
Proof.
  unfold first_tier, values_of.
  destruct (filter (fun kv : val * dict => kv.1 = k) d2); reflexivity.
Qed.

Lemma ReshapeData_Ok (k : val) (dataset1 dataset2 : list dict) (t : val) :
  head dataset2 ≫= (fun b : dict => b !! Some "tier") = Some t ->
  Beam.ReshapeData (k, (dataset1, dataset2))
  = Ok (map (fun entry : dict => <[Some "tier" := t]> entry) dataset1).
Proof.
  intros Ht. simpl. apply mapM_ext_Ok. apply Forall_forall. intros entry _.
  unfold list_getitem. rewrite <- head_lookup.
  destruct (head dataset2) as [b|]; [|discriminate]. simpl in *.
  unfold getitem. rewrite Ht. reflexivity.
Qed.

Lemma ParDo_Forall {A B : Type} (fn : A -> result (list B)) (F : A -> list B)
    (pcoll : list A) :
  Forall (fun x => fn x = Ok (F x)) pcoll ->
  Beam.ParDo fn pcoll = Ok (pcoll ≫= F).
Proof.
  intros H. unfold Beam.ParDo. rewrite (mapM_ext_Ok fn F pcoll H). simpl.
  f_equal. induction pcoll as [|x l IH]; simpl; [reflexivity|].
  apply Forall_cons in H as [_ H]. rewrite IH by exact H. reflexivity.
Qed.

Lemma bind_map {A B C : Type} (h : A -> B) (F : B -> list C) (l : list A) :
  map h l ≫= F = l ≫= (fun x => F (h x)).
Proof.
  induction l as [|x l IH]; [reflexivity|].
  simpl map. rewrite !bind_cons, IH. reflexivity.
Qed.

Lemma omap_cons {A B : Type} (f : A -> option B) (x : A) (l : list A) :
  omap f (x :: l) = match f x with
                    | Some y => y :: omap f l
                    | None => omap f l
                    end.
Proof. reflexivity. Qed.

Lemma omap_bind_flat {K V B : Type} (J : K * V -> option B)
    (groups : list (K * list V)) :
  groups ≫= (fun g => omap J (map (pair g.1) g.2)) = omap J (flat groups).
Proof.
  unfold flat. induction groups as [|g groups IH]; [reflexivity|].
  rewrite !bind_cons, omap_app, IH. reflexivity.
Qed.


Lemma omap_join_tagged_inr (d2 l : list (val * dict)) :
  omap (join_tagged d2) (map (fun kv : val * dict => (kv.1, inr kv.2)) l) = [].
Proof.
  induction l as [|kv l IH]; [reflexivity|].
  simpl map. rewrite omap_cons. exact IH.
Qed.

Lemma omap_join_tagged_inl (d2 l : list (val * dict)) :
  omap (join_tagged d2) (map (fun kv : val * dict => (kv.1, inl kv.2)) l)
  = omap (join_one d2) l.
Proof.
  induction l as [|[k a] l IH]; [reflexivity|].
  simpl map. rewrite !omap_cons, IH. reflexivity.
Qed.

Lemma omap_join_tagged_lefts (d2 : list (val * dict)) (k : val)
    (tvs : list (dict + dict)) :
  omap (join_one d2) (map (pair k)
    (omap (fun t : dict + dict =>
             match t with inl v => Some v | inr _ => None end) tvs))
  = omap (join_tagged d2) (map (pair k) tvs).
Proof.
  induction tvs as [|[a|b] tvs IH]; [reflexivity| |].
  - rewrite omap_cons. simpl map. rewrite !omap_cons, IH. reflexivity.
  - rewrite omap_cons. simpl map. rewrite omap_cons, IH. reflexivity.
Qed.

Lemma omap_join_one_map (d2 : list (val * dict)) (k : val) (t : val)
    (l : list dict) :
  first_tier k d2 = Some t ->
  omap (join_one d2) (map (pair k) l)
  = map (fun entry : dict => <[Some "tier" := t]> entry) l.
Proof.
  intros Ht. induction l as [|x l IH]; [reflexivity|].
  simpl map. rewrite omap_cons, IH. unfold join_one. simpl. rewrite Ht.
  reflexivity.
Qed.

Lemma beam_join (d1 d2 : list (val * dict)) :
  (forall k a, (k, a) ∈ d1 -> is_Some (first_tier k d2)) ->
  exists merged,
    Beam.ParDo Beam.ReshapeData (Beam.CoGroupByKey d1 d2) = Ok merged /\
    merged ≡ₚ omap (join_one d2) d1.
Proof.
  intros Hall.
  assert (Forall (fun e : val * (list dict * list dict) =>
            Beam.ReshapeData e
            = Ok (omap (join_one d2) (map (pair e.1) e.2.1)))
            (Beam.CoGroupByKey d1 d2)) as Hres.
  { apply Forall_forall. intros [k [ds1 ds2]] Hin.
    destruct (CoGroupByKey_elem d1 d2 k ds1 ds2 Hin) as [-> ->]. simpl fst. simpl snd.
    destruct (values_of k d1) as [|a ds1] eqn:Hds1; [reflexivity|].
    destruct (Hall k a) as [t Ht].
    { assert (a ∈ values_of k d1) as Ha by (rewrite Hds1; left).
      unfold values_of in Ha. apply list_elem_of_fmap in Ha as ([k' a'] & -> & Ha).
      apply list_elem_of_filter in Ha as [Hk Ha]. simpl in Hk. subst k'. exact Ha. }
    rewrite (ReshapeData_Ok k (a :: ds1) (values_of k d2) t)
      by (rewrite <- first_tier_head; exact Ht).
    rewrite (omap_join_one_map d2 k t _ Ht). reflexivity. }
  rewrite (ParDo_Forall _ _ _ Hres).
  eexists. split; [reflexivity|].
  unfold Beam.CoGroupByKey. rewrite bind_map. simpl fst. simpl snd.
  rewrite (list_bind_ext _
             (fun g : val * list (dict + dict) =>
                omap (join_tagged d2) (map (pair g.1) g.2)) _ _
             (fun g => omap_join_tagged_lefts d2 g.1 g.2) eq_refl).
  rewrite omap_bind_flat.
  destruct (GroupByKey_spec
              (map (fun kv : val * dict => (kv.1, inl kv.2)) d1 ++
               map (fun kv : val * dict => (kv.1, inr kv.2)) d2))
    as (_ & Hperm & _).
  rewrite Hperm, omap_app, omap_join_tagged_inr, omap_join_tagged_inl, app_nil_r.
  reflexivity.
Qed.

(** The pandas merge holds, up to the order of its rows, one row for
    every pair of a row of dataset A and a row of dataset B with the
    same counter_party. *)
Lemma bind_ext_in {A B : Type} (f g : A -> list B) (l : list A) :
  (forall x, x ∈ l -> f x = g x) -> l ≫= f = l ≫= g.
Proof.
  induction l as [|x l IH]; intros H; [reflexivity|].
  rewrite !bind_cons, (H x) by left. rewrite IH; [reflexivity|].
  intros y Hy. apply H. right. exact Hy.
Qed.

Lemma bind_flat {K V B : Type} (F : V -> list B) (groups : list (K * list V)) :
  groups ≫= (fun g => g.2 ≫= F) = flat groups ≫= (fun kv => F kv.2).
Proof.
  unfold flat. induction groups as [|g groups IH]; [reflexivity|].
  rewrite !bind_cons, bind_app, IH, bind_map. reflexivity.
Qed.

Lemma merge_Permutation (dataset1 : list Pandas.row1)
    (dataset2 : list Pandas.row2) :
  Pandas.merge dataset1 dataset2
  ≡ₚ dataset1 ≫= (fun a =>
       map (fun b => with_tier a (Pandas.tier2 b)) (matches a dataset2)).
Proof.
  unfold Pandas.merge.
  destruct (GroupByKey_spec
              (map (fun l => (Pandas.counter_party1 l, l)) dataset1))
    as (_ & Hperm & Hg).
  rewrite (bind_ext_in _
             (fun g : option string * list Pandas.row1 =>
                g.2 ≫= (fun a =>
                  map (fun b => with_tier a (Pandas.tier2 b))
                      (matches a dataset2)))).
  - rewrite bind_flat, Hperm, bind_map. reflexivity.
  - intros [k vs] Hin. simpl. destruct (Hg k vs Hin) as [Hvs _].
    apply bind_ext_in. intros a Ha. rewrite Hvs in Ha. unfold values_of in Ha.
    apply list_elem_of_fmap in Ha as ([k' a'] & Heq & Ha). simpl in Heq. subst a'.
    apply list_elem_of_filter in Ha as [Hk Ha]. simpl in Hk. subst k'.
    apply list_elem_of_fmap in Ha as (a' & Heq & _).
    injection Heq as Hk Ha. subst a' k. reflexivity.
Qed.




(** A record of dataset A with no record of dataset B under its key
    makes the Beam join raise. *)
Lemma beam_join_unmatched (d1 d2 : list (val * dict)) (k : val) (a : dict) :
  (k, a) ∈ d1 -> values_of k d2 = [] ->
  exists e, Beam.ParDo Beam.ReshapeData (Beam.CoGroupByKey d1 d2) = Raise e.
Proof.
  intros Hin Hnone.
  assert (exists ds1, (k, (ds1, [])) ∈ Beam.CoGroupByKey d1 d2 /\ a ∈ ds1)
    as (ds1 & Helem & Ha).
  { destruct (GroupByKey_elem
                (map (fun kv : val * dict => (kv.1, inl kv.2)) d1 ++
                 map (fun kv : val * dict => (kv.1, inr kv.2)) d2)
                k (inl a)) as (tvs & Hg & Htv).
    { apply elem_of_app. left. apply list_elem_of_fmap.
      exists (k, a). split; [reflexivity | exact Hin]. }
    assert ((k, (omap (fun t : dict + dict =>
                         match t with inl v => Some v | inr _ => None end) tvs,
                 omap (fun t : dict + dict =>
                         match t with inl _ => None | inr v => Some v end) tvs))
            ∈ Beam.CoGroupByKey d1 d2) as Helem.
    { unfold Beam.CoGroupByKey. apply list_elem_of_fmap.
      exists (k, tvs). split; [reflexivity | exact Hg]. }
    destruct (CoGroupByKey_elem d1 d2 k _ _ Helem) as [H1 H2].
    rewrite Hnone in H2. rewrite H2 in Helem.
    eexists. split; [exact Helem|].
    apply list_elem_of_omap. exists (inl a). split; [exact Htv | reflexivity]. }
  assert (Beam.ReshapeData (k, (ds1, [])) = Raise IndexError) as Hraise.
  { destruct ds1 as [|x ds1]; [apply elem_of_nil in Ha; contradiction|].
    reflexivity. }
  unfold Beam.ParDo.
  destruct (mapM_Raise Beam.ReshapeData _ _ _ Helem Hraise) as [e ->].
  exists e. reflexivity.
Qed.

(** C3: with the record of counter party CP2, which dataset B lacks,
    the Beam program raises [IndexError] whatever the order of its
    branches, and writes nothing; the pandas merge drops the record and
    gives the rows it gives without it. *)
Theorem C3_unmatched_record :
  (forall (schedule : list (list string)) (file : Beam.csv_file),
     Beam.main schedule exA_unmatched exB file = Raise IndexError) /\
  Pandas.merge ex_dataset1_unmatched ex_dataset2
  = Pandas.merge ex_dataset1 ex_dataset2.
Proof.
  split.
  - intros schedule file. unfold Beam.main.
    assert (Beam.merged_data exA_unmatched exB = Raise IndexError) as ->
      by (vm_compute; reflexivity).
    reflexivity.
  - vm_compute. reflexivity.
Qed.

(** C1: for the grouping key [tier] and two joined records with the
    tier T-1, the Beam program writes the tier T, not T-1; the counts
    that fill the other two columns are right.  The pandas script
    writes T-1. *)
Theorem C1_group_column_truncated :
  (merged ← Beam.merged_data exA exB_dash;
   rows ← Beam.output_rows ["tier"] merged;
   mapM cells rows)
  = Ok [[VInt 2; VInt 2; VStr "T"; VInt 5; VInt 100; VInt 50]] /\
  (rows ← Pandas.custom_groupby_and_aggregate
            (Pandas.merge ex_dataset1 ex_dataset2_dash) ["tier"];
   mapM cells rows)
  = Ok [[VInt 2; VInt 2; VStr "T-1"; VInt 5; VInt 100; VInt 50]].
Proof. split; vm_compute; reflexivity. Qed.

(** The back-fill example: three joined records share the tier Gold;
    the row for the grouping key [tier] holds 3, 3 and Gold. *)
Example back_fill_gold :
  (merged ← Beam.merged_data exA_gold exB_gold;
   rows ← Beam.output_rows ["tier"] merged;
   mapM cells rows)
  = Ok [[VInt 3; VInt 3; VStr "Gold"; VInt 5; VInt 170; VInt 50]].
Proof. vm_compute. reflexivity. Qed.

(** ** The order of the rows *)

Lemma append_all_Ok (df : list Pandas.row) (columns : list (list string)) :
  forall (result_df out : list dict),
    Pandas.append_all df columns result_df = Ok out <->
    exists rest, rows_in_order df columns = Ok rest /\ out = result_df ++ rest.
Proof.
  unfold rows_in_order.
  induction columns as [|c columns IH]; intros result_df out; simpl.
  - split.
    + intros [= <-]. exists []. split; [reflexivity|]. symmetry. apply app_nil_r.
    + intros (rest & [= <-] & ->). rewrite app_nil_r. reflexivity.
  - destruct (Pandas.custom_groupby_and_aggregate df c) as [rows|e]; simpl.
    + rewrite IH. split.
      * intros (rest & Hrest & ->).
        apply fmap_Ok in Hrest as (rss & Hrss & ->). rewrite Hrss. simpl.
        eexists. split; [reflexivity|]. rewrite app_assoc. reflexivity.
      * intros (rest & Hrest & ->).
        destruct (mapM (Pandas.custom_groupby_and_aggregate df) columns)
          as [rss|e]; simpl in *; [|discriminate].
        injection Hrest as <-. eexists. split; [reflexivity|].
        rewrite app_assoc. reflexivity.
    + split; [discriminate|]. intros (rest & Hrest & _). discriminate.
Qed.

Lemma custom_groupby_and_aggregate_total (df : list Pandas.row)
    (group_column : list string) :
  group_column <> [] -> group_column ⊆ Pandas.aggr_columns ->
  exists rows, Pandas.custom_groupby_and_aggregate df group_column = Ok rows.
Proof.
  intros Hne Hsub. unfold Pandas.custom_groupby_and_aggregate.
  destruct (groupby_total df group_column Hne Hsub) as [groups ->].
  simpl. eauto.
Qed.

Lemma C5_counterexample :
  (rows ← Pandas.main ex_dataset1 ex_dataset2; mapM cells rows)
  <> (rows ← rows_in_order (Pandas.merge ex_dataset1 ex_dataset2)
               enumeration_order;
      mapM cells rows).
Proof. vm_compute. discriminate. Qed.

(** C5, amended: the pandas script appends the rows in the order of its
    own list of grouping keys, legal_entity, counter_party, tier, then
    the three pairs and the triple; the file of the Beam program holds,
    after the header, the rows of its branches in the order in which
    they ran, which is the enumeration order when they ran in that
    order. *)
Theorem C5_row_order :
  (forall (dataset1 : list Pandas.row1) (dataset2 : list Pandas.row2),
     exists rss,
       Forall2 (fun group_column rows =>
                  Pandas.custom_groupby_and_aggregate
                    (Pandas.merge dataset1 dataset2) group_column = Ok rows)
               [ ["legal_entity"]; ["counter_party"]; ["tier"];
                 ["legal_entity"; "counter_party"]; ["counter_party"; "tier"];
                 ["tier"; "legal_entity"];
                 ["legal_entity"; "counter_party"; "tier"] ] rss /\
       Pandas.main dataset1 dataset2 = Ok (mjoin rss)) /\
  (forall (merged : list dict) (schedule : list (list string))
          (file' : Beam.csv_file),
     schedule <> [] ->
     Beam.run_branches merged schedule [] = Ok file' ->
     exists written : list (list (list val)),
       Forall2 (fun keys rows => exists out,
                  Beam.output_rows keys merged = Ok out /\
                  mapM cells out = Ok rows) schedule written /\
       file' = Beam.header_row :: mjoin written) /\
  Beam.group_by_columns = enumeration_order.
Proof.
  split; [|split; [|reflexivity]].
  - intros dataset1 dataset2.
    destruct (mapM_total (Pandas.custom_groupby_and_aggregate
                            (Pandas.merge dataset1 dataset2))
                Pandas.group_by_columns) as [rss Hrss].
    { apply Forall_forall. intros g Hg.
      destruct (pandas_group_by_columns_wf g Hg) as (_ & Hsub & Hne).
      apply custom_groupby_and_aggregate_total; assumption. }
    exists rss. split; [apply mapM_Ok, Hrss|].
    unfold Pandas.main. apply append_all_Ok.
    exists (mjoin rss). split; [|reflexivity].
    unfold rows_in_order. rewrite Hrss. reflexivity.
  - intros merged schedule file' Hne H.
    destruct (run_branches_Ok merged schedule [] file' H) as (written & Hw & ->).
    exists written. split; [exact Hw|].
    destruct schedule; [contradiction | reflexivity].
Qed.

Lemma C5_row_order_witness :
  exists written : list (list (list val)),
    ex_report = Beam.header_row :: mjoin written.
Proof.
  destruct (proj1 (proj2 C5_row_order) ex_merged Beam.group_by_columns ex_report)
    as (written & _ & Hfile).
  - discriminate.
  - vm_compute. reflexivity.
  - exists written. exact Hfile.
Defined.

(** ** Malformed rows *)

Lemma ReadCSVFile_length (fieldnames : list string) (rows : list (list string)) :
  length (Beam.ReadCSVFile (fieldnames :: rows))
  = length (filter (fun row : list string => row <> []) rows).
Proof. simpl. apply length_map. Qed.

Lemma fold_None_lookup (ks : list string) :
  forall (d : dict) (k : string),
    k ∈ ks ->
    foldl (fun (d : dict) k => <[Some k := VNone]> d) d ks !! Some k = Some VNone.
Proof.
  induction ks as [|k' ks IH] using rev_ind; intros d k Hk.
  - apply elem_of_nil in Hk. contradiction.
  - rewrite foldl_app. simpl.
    destruct (decide (k = k')) as [->|Hne]; [apply lookup_insert_eq|].
    rewrite lookup_insert_ne by congruence.
    apply IH. apply elem_of_app in Hk as [Hk|Hk]; [exact Hk|].
    apply list_elem_of_singleton in Hk. contradiction.
Qed.

Lemma DictReader_row_short (fieldnames row : list string) (k : string) :
  (length row < length fieldnames)%nat ->
  k ∈ drop (length row) fieldnames ->
  Beam.DictReader_row fieldnames row !! Some k = Some VNone.
Proof.
  intros Hlen Hk. unfold Beam.DictReader_row.
  destruct (Nat.ltb_spec (length fieldnames) (length row)) as [Hlt|_]; [lia|].
  destruct (Nat.ltb_spec (length row) (length fieldnames)) as [_|Hge]; [|lia].
  apply fold_None_lookup, Hk.
Qed.

Lemma DictReader_row_long (fieldnames row : list string) :
  (length fieldnames < length row)%nat ->
  Beam.DictReader_row fieldnames row !! None
  = Some (VList (drop (length fieldnames) row)).
Proof.
  intros Hlen. unfold Beam.DictReader_row.
  destruct (Nat.ltb_spec (length fieldnames) (length row)) as [_|Hge]; [|lia].
  apply lookup_insert_eq.
Qed.

Lemma values_where_Raise (tag : string) (data : list dict) (x : dict) (e : exn) :
  x ∈ data -> getitem x "status" = Ok (VStr tag) -> value_of x = Raise e ->
  exists e', Beam.values_where tag data = Raise e'.
Proof.
  intros Hin Hs Hv. induction Hin as [x data|x y data _ IH]; simpl;
    [|specialize (IH Hs Hv)].
  - rewrite Hs. simpl.
    destruct (decide (VStr tag = VStr tag)); [|contradiction].
    unfold value_of in Hv.
    destruct (getitem x "value") as [v|e1]; simpl in *; [|eauto].
    rewrite Hv. simpl. eauto.
  - destruct (getitem y "status") as [st|e1]; simpl; [|eauto].
    destruct (decide (st = VStr tag)); [|exact IH].
    destruct (getitem y "value") as [v|e1]; simpl; [|eauto].
    destruct (int v) as [i|e1]; simpl; [|eauto].
    destruct IH as [e' ->]. simpl. eauto.
Qed.

Lemma ExtractAndSum_Raise (key : string) (data : list dict) (x : dict) :
  x ∈ data -> unreadable x -> exists e, Beam.ExtractAndSum (key, data) = Raise e.
Proof.
  intros Hin Hx. unfold Beam.ExtractAndSum.
  destruct (Beam.ratings data) as [rs|e1] eqn:Hrs; simpl; [|eauto].
  destruct (py_max rs) as [mx|e1]; simpl; [|eauto].
  destruct Hx as [[[e Hr] _]|[Hst [[e Hv] _]]].
  - exfalso. destruct (mapM_Raise rating_of data x e Hin Hr) as [e' He'].
    unfold Beam.ratings in Hrs. unfold rating_of in He'. congruence.
  - destruct Hst as [Hst|Hst].
    + destruct (values_where_Raise "ARAP" data x e Hin Hst Hv) as [e' ->].
      simpl. eauto.
    + destruct (Beam.values_where "ARAP" data) as [arap|e1]; simpl; [|eauto].
      destruct (values_where_Raise "ACCR" data x e Hin Hst Hv) as [e' ->].
      simpl. eauto.
Qed.

Lemma aggregates_Raise (keys : list string) (merged : list dict) (x : dict) :
  x ∈ merged -> unreadable x ->
  exists e, Beam.aggregates keys merged = Raise e.
Proof.
  intros Hin Hx. unfold Beam.aggregates.
  destruct (Beam.ParDo (Beam.CompositeKeyFn keys) merged) as [keyed|e1] eqn:Hk;
    simpl; [|eauto].
  pose proof (ParDo_CompositeKeyFn_length keys merged keyed Hk) as Hsnd.
  rewrite <- Hsnd in Hin.
  apply list_elem_of_fmap in Hin as ([ck x'] & Hxx & Hin). simpl in Hxx. subst x'.
  destruct (GroupByKey_elem (map (fun y : string * dict => (y.1, y)) keyed)
              ck (ck, x)) as (vs & Hg & Hv).
  { apply list_elem_of_fmap. exists (ck, x). split; [reflexivity | exact Hin]. }
  destruct (ExtractAndSum_Raise ck (map snd vs) x) as [e He].
  { apply list_elem_of_fmap. exists (ck, x). split; [reflexivity | exact Hv]. }
  { exact Hx. }
  unfold Beam.ParDo, Beam.GroupBy.
  destruct (mapM_Raise Beam.ExtractAndSum
              (map (fun group : string * list (string * dict) =>
                      (group.1, map snd group.2))
                   (Beam.GroupByKey
                      (map (fun y : string * dict => (y.1, y)) keyed)))
              (ck, map snd vs) e) as [e' ->].
  - apply list_elem_of_fmap. exists (ck, vs). split; [reflexivity | exact Hg].
  - exact He.
  - simpl. eauto.
Qed.

(** The aggregator reads the value of the records with status ARAP or
    ACCR only. *)
Lemma mapM_cons {A B : Type} (f : A -> result B) (x : A) (l : list A) :
  mapM f (x :: l) = (y ← f x; k ← mapM f l; Ok (y :: k)).
Proof. reflexivity. Qed.

Lemma ratings_agree (data1 data2 : list dict) (x x' : dict) :
  x' !! Some "rating" = x !! Some "rating" ->
  Beam.ratings (data1 ++ x' :: data2) = Beam.ratings (data1 ++ x :: data2).
Proof.
  intros Hr. unfold Beam.ratings.
  induction data1 as [|y data1 IH].
  - rewrite !app_nil_l, !mapM_cons. unfold getitem. rewrite Hr. reflexivity.
  - rewrite <- !app_comm_cons, !mapM_cons, IH. reflexivity.
Qed.

Lemma values_where_agree (tag : string) (data1 data2 : list dict)
    (x x' : dict) (st : val) :
  getitem x "status" = Ok st -> st <> VStr tag ->
  x' !! Some "status" = x !! Some "status" ->
  Beam.values_where tag (data1 ++ x' :: data2)
  = Beam.values_where tag (data1 ++ x :: data2).
Proof.
  intros Hst Hne Hs.
  assert (getitem x' "status" = Ok st) as Hst'.
  { unfold getitem in *. rewrite Hs. exact Hst. }
  induction data1 as [|y data1 IH].
  - rewrite !app_nil_l. simpl. rewrite Hst, Hst'. simpl.
    destruct (decide (st = VStr tag)); [contradiction | reflexivity].
  - rewrite <- !app_comm_cons. simpl. rewrite IH. reflexivity.
Qed.

Lemma ExtractAndSum_value_unread (key : string) (data1 data2 : list dict)
    (x x' : dict) (st : val) :
  getitem x "status" = Ok st -> st <> VStr "ARAP" -> st <> VStr "ACCR" ->
  x' !! Some "rating" = x !! Some "rating" ->
  x' !! Some "status" = x !! Some "status" ->
  Beam.ExtractAndSum (key, data1 ++ x' :: data2)
  = Beam.ExtractAndSum (key, data1 ++ x :: data2).
Proof.
  intros Hst H1 H2 Hr Hs. unfold Beam.ExtractAndSum.
  rewrite (ratings_agree data1 data2 x x' Hr).
  rewrite (values_where_agree "ARAP" data1 data2 x x' st Hst H1 Hs).
  rewrite (values_where_agree "ACCR" data1 data2 x x' st Hst H2 Hs).
  rewrite !length_app. reflexivity.
Qed.

Lemma C7_counterexample :
  exists file',
    Beam.main Beam.group_by_columns exA_malformed exB [] = Ok file' /\
    length (Beam.ReadCSVFile exA_malformed) = 3%nat /\
    file' !! 1%nat
    = Some [VInt 3; VInt 3; VStr "T1"; VInt 5; VInt 100; VInt 0].
Proof. eexists. split; [vm_compute; reflexivity|]. split; reflexivity. Qed.

(** C7, amended, for the Beam program: loading checks no field count:
    every non-blank data row becomes a record, with [None] for the
    fields it lacks and its surplus fields under the key [None].  A
    joined record whose rating is no integer, or whose status is ARAP
    or ACCR and whose value is no integer, makes every branch, and so
    the run, raise.  The value of a record with another status is not
    read: the aggregates are the same whatever it is. *)
Theorem C7_malformed_rows :
  (forall (fieldnames : list string) (rows : list (list string)),
     length (Beam.ReadCSVFile (fieldnames :: rows))
     = length (filter (fun row : list string => row <> []) rows)) /\
  (forall (fieldnames row : list string) (k : string),
     (length row < length fieldnames)%nat ->
     k ∈ drop (length row) fieldnames ->
     Beam.DictReader_row fieldnames row !! Some k = Some VNone) /\
  (forall (fieldnames row : list string),
     (length fieldnames < length row)%nat ->
     Beam.DictReader_row fieldnames row !! None
     = Some (VList (drop (length fieldnames) row))) /\
  (forall (merged : list dict) (schedule : list (list string))
          (file : Beam.csv_file) (x : dict),
     schedule <> [] -> x ∈ merged -> unreadable x ->
     exists e, Beam.run_branches merged schedule file = Raise e) /\
  (forall (key : string) (data1 data2 : list dict) (x x' : dict) (st : val),
     getitem x "status" = Ok st -> st <> VStr "ARAP" -> st <> VStr "ACCR" ->
     x' !! Some "rating" = x !! Some "rating" ->
     x' !! Some "status" = x !! Some "status" ->
     Beam.ExtractAndSum (key, data1 ++ x' :: data2)
     = Beam.ExtractAndSum (key, data1 ++ x :: data2)).
Proof.
  split; [exact ReadCSVFile_length|].
  split; [exact DictReader_row_short|].
  split; [exact DictReader_row_long|].
  split; [|exact ExtractAndSum_value_unread].
  intros merged schedule file x Hne Hin Hx.
  destruct schedule as [|keys rest]; [contradiction|].
  simpl. unfold Beam.branch, Beam.output_rows.
  destruct (aggregates_Raise keys merged x Hin Hx) as [e ->].
  simpl. eauto.
Qed.

Lemma C7_malformed_rows_witness :
  Beam.DictReader_row ["counter_party"; "tier"] ["CP1"] !! Some "tier"
  = Some VNone /\
  Beam.DictReader_row ["counter_party"; "tier"] ["CP1"; "T1"; "surplus"] !! None
  = Some (VList ["surplus"]) /\
  (exists e,
     Beam.run_branches [joined "CP1" "LE1" "high" "100" "ARAP" "T1"]
       Beam.group_by_columns [] = Raise e) /\
  Beam.ExtractAndSum
    ("T1", ex_merged ++ [joined "CP1" "LE1" "4" "abc" "OPEN" "T1"])
  = Beam.ExtractAndSum ("T1", ex_merged_open).
Proof.
  split; [|split; [|split]].
  - apply (proj1 (proj2 C7_malformed_rows) ["counter_party"; "tier"] ["CP1"]).
    + simpl. lia.
    + simpl. left.
  - apply (proj1 (proj2 (proj2 C7_malformed_rows)) ["counter_party"; "tier"]
             ["CP1"; "T1"; "surplus"]).
    simpl. lia.
  - apply (proj1 (proj2 (proj2 (proj2 C7_malformed_rows)))
             [joined "CP1" "LE1" "high" "100" "ARAP" "T1"]
             Beam.group_by_columns []
             (joined "CP1" "LE1" "high" "100" "ARAP" "T1")).
    + discriminate.
    + left.
    + left. split; [exists ValueError; vm_compute; reflexivity|].
      intros s Hs. vm_compute in Hs. injection Hs as <-.
      unfold ascii_only. simpl. repeat constructor.
  - apply (proj2 (proj2 (proj2 (proj2 C7_malformed_rows))) "T1" ex_merged []
             (joined "CP1" "LE1" "4" "7" "OPEN" "T1")
             (joined "CP1" "LE1" "4" "abc" "OPEN" "T1") (VStr "OPEN")).
    + vm_compute. reflexivity.
    + discriminate.
    + discriminate.
    + vm_compute. reflexivity.
    + vm_compute. reflexivity.
Defined.

(** ** Reading a file: further properties *)

Lemma fold_zip_absent (fs row : list string) :
  forall (d : dict) (k : option string),
    (forall f, k = Some f -> f ∉ fs) ->
    foldl (fun (d : dict) fv => <[Some fv.1 := VStr fv.2]> d) d (zip fs row) !! k
    = d !! k.
Proof.
  revert row. induction fs as [|f fs IH]; intros row d k Hk; [reflexivity|].
  destruct row as [|v row]; [reflexivity|]. simpl.
  rewrite IH.
  - apply lookup_insert_ne. intros <-. apply (Hk f eq_refl). left.
  - intros f' Hf' Hin. apply (Hk f' Hf'). right. exact Hin.
Qed.

Lemma fold_zip_lookup (fs row : list string) :
  forall (d : dict) (i : nat) (f v : string),
    NoDup fs -> fs !! i = Some f -> row !! i = Some v ->
    foldl (fun (d : dict) fv => <[Some fv.1 := VStr fv.2]> d) d (zip fs row)
      !! Some f = Some (VStr v).
Proof.
  revert row. induction fs as [|f0 fs IH]; intros row d i f v Hnd Hf Hv.
  - rewrite lookup_nil in Hf. discriminate.
  - destruct row as [|v0 row]; [rewrite lookup_nil in Hv; discriminate|].
    apply NoDup_cons in Hnd as [Hf0 Hnd]. simpl.
    destruct i as [|i]; simpl in Hf, Hv.
    + injection Hf as ->. injection Hv as ->.
      rewrite fold_zip_absent; [apply lookup_insert_eq|].
      intros f' [= <-]. exact Hf0.
    + eapply IH; eassumption.
Qed.

Lemma fold_None_absent (ks : list string) :
  forall (d : dict) (k : option string),
    (forall f, k = Some f -> f ∉ ks) ->
    foldl (fun (d : dict) k => <[Some k := VNone]> d) d ks !! k = d !! k.
Proof.
  induction ks as [|k0 ks IH]; intros d k Hk; [reflexivity|]. simpl.
  rewrite IH.
  - apply lookup_insert_ne. intros <-. apply (Hk k0 eq_refl). left.
  - intros f Hf Hin. apply (Hk f Hf). right. exact Hin.
Qed.

(** A record never holds a field that the header does not name. *)
Lemma DictReader_row_absent (fieldnames row : list string) (k : string) :
  k ∉ fieldnames -> Beam.DictReader_row fieldnames row !! Some k = None.
Proof.
  intros Hk. unfold Beam.DictReader_row.
  destruct (length fieldnames <? length row)%nat.
  - rewrite lookup_insert_ne by discriminate.
    rewrite fold_zip_absent; [apply lookup_empty|].
    intros f [= <-]. exact Hk.
  - destruct (length row <? length fieldnames)%nat.
    + rewrite fold_None_absent.
      * rewrite fold_zip_absent; [apply lookup_empty|].
        intros f [= <-]. exact Hk.
      * intros f [= <-] Hin. apply Hk.
        apply list_elem_of_lookup in Hin as [i Hi].
        rewrite lookup_drop in Hi. eapply list_elem_of_lookup_2, Hi.
    + rewrite fold_zip_absent; [apply lookup_empty|].
      intros f [= <-]. exact Hk.
Qed.

Lemma mapM_cons_Raise {A B : Type} (f : A -> result B) (x : A) (l : list A)
    (e : exn) :
  f x = Raise e -> mapM f (x :: l) = Raise e.
Proof. intros H. simpl. rewrite H. reflexivity. Qed.

(** X1: a data row with as many fields as a duplicate-free header is
    read as the record that maps every field name to the field in its
    position and holds nothing else. *)
Theorem X1_DictReader_row_exact :
  forall (fieldnames row : list string),
    NoDup fieldnames -> length row = length fieldnames ->
    (forall i f v, fieldnames !! i = Some f -> row !! i = Some v ->
       Beam.DictReader_row fieldnames row !! Some f = Some (VStr v)) /\
    (forall k, k ∉ fieldnames ->
       Beam.DictReader_row fieldnames row !! Some k = None) /\
    Beam.DictReader_row fieldnames row !! None = None.
Proof.
  intros fieldnames row Hnd Hlen. split; [|split].
  - intros i f v Hf Hv. unfold Beam.DictReader_row. rewrite Hlen.
    rewrite Nat.ltb_irrefl. eapply fold_zip_lookup; eassumption.
  - intros k Hk. apply DictReader_row_absent, Hk.
  - unfold Beam.DictReader_row. rewrite Hlen, Nat.ltb_irrefl.
    rewrite fold_zip_absent; [apply lookup_empty | discriminate].
Qed.

Lemma X1_DictReader_row_exact_witness :
  Beam.DictReader_row ["counter_party"; "tier"] ["CP1"; "T1"] !! Some "tier"
  = Some (VStr "T1").
Proof.
  apply (proj1 (X1_DictReader_row_exact ["counter_party"; "tier"] ["CP1"; "T1"]
                  ltac:(apply (bool_decide_unpack _); vm_compute; reflexivity)
                  eq_refl) 1%nat); reflexivity.
Defined.

(** X2: when the header of dataset A does not name counter_party and the
    file has a data row that is not blank, the program raises
    [KeyError], whatever dataset B and the output file hold. *)
Theorem X2_missing_counter_party_column :
  forall (fieldnames : list string) (rows : list (list string))
         (schedule : list (list string)) (file2 : list (list string))
         (file : Beam.csv_file),
    "counter_party" ∉ fieldnames ->
    filter (fun row : list string => row <> []) rows <> [] ->
    Beam.main schedule (fieldnames :: rows) file2 file = Raise KeyError.
Proof.
  intros fieldnames rows schedule file2 file Hcp Hrows.
  unfold Beam.main, Beam.merged_data, Beam.Map. simpl Beam.ReadCSVFile.
  destruct (filter (fun row : list string => row <> []) rows) as [|row rest];
    [contradiction|].
  simpl map.
  rewrite (mapM_cons_Raise Beam.key_by_counter_party _ _ KeyError);
    [reflexivity|].
  unfold Beam.key_by_counter_party, getitem.
  rewrite (DictReader_row_absent fieldnames row "counter_party" Hcp).
  reflexivity.
Qed.

Lemma X2_missing_counter_party_column_witness :
  Beam.main Beam.group_by_columns
    [ ["legal_entity"; "rating"; "value"; "status"];
      ["LE1"; "5"; "100"; "ARAP"] ] exB []
  = Raise KeyError.
Proof.
  apply X2_missing_counter_party_column.
  - apply (bool_decide_unpack _). vm_compute. reflexivity.
  - discriminate.
Defined.

(** ** A run without joined records *)

Lemma run_branches_nil (schedule : list (list string)) :
  forall file : Beam.csv_file,
    Beam.run_branches [] schedule file
    = Ok (if decide (file = []) then
            match schedule with [] => [] | _ => [Beam.header_row] end
          else file).
Proof.
  induction schedule as [|keys rest IH]; intros file.
  - simpl. destruct (decide (file = [])) as [->|_]; reflexivity.
  - change (Beam.run_branches [] (keys :: rest) file)
      with (Beam.run_branches [] rest
              ((if decide (file = []) then [Beam.header_row] else file) ++ [])).
    rewrite app_nil_r, IH.
    destruct (decide (file = [])) as [->|Hne].
    + destruct (decide ([Beam.header_row] = [])); [discriminate | reflexivity].
    + destruct (decide (file = [])); [contradiction | reflexivity].
Qed.

(** X3: when dataset A has no data row and the records of dataset B all
    have a counter_party, no record is joined and the run is no error:
    an empty output file receives the header alone, a file that holds
    rows is left as it is. *)
Theorem X3_empty_dataset :
  forall (file1 file2 : list (list string)) (d2 : list (val * dict))
         (schedule : list (list string)) (file : Beam.csv_file),
    Beam.ReadCSVFile file1 = [] ->
    Beam.Map Beam.key_by_counter_party (Beam.ReadCSVFile file2) = Ok d2 ->
    schedule <> [] ->
    Beam.merged_data file1 file2 = Ok [] /\
    Beam.main schedule file1 file2 file
    = Ok (if decide (file = []) then [Beam.header_row] else file).
Proof.
  intros file1 file2 d2 schedule file H1 H2 Hne.
  assert (Beam.merged_data file1 file2 = Ok []) as Hm.
  { unfold Beam.merged_data. rewrite H1, H2. simpl.
    destruct (beam_join [] d2) as (merged & Hmerged & Hperm).
    { intros k a Hin. apply elem_of_nil in Hin. contradiction. }
    rewrite Hmerged. f_equal. apply Permutation_nil_r. exact Hperm. }
  split; [exact Hm|].
  unfold Beam.main. rewrite Hm. simpl. rewrite run_branches_nil.
  destruct schedule; [contradiction | reflexivity].
Qed.

Lemma X3_empty_dataset_witness :
  Beam.main Beam.group_by_columns
    [ ["counter_party"; "legal_entity"; "rating"; "value"; "status"]; [] ]
    exB []
  = Ok [Beam.header_row].
Proof.
  apply (proj2 (X3_empty_dataset
    [ ["counter_party"; "legal_entity"; "rating"; "value"; "status"]; [] ]
    exB ex_keyed2 Beam.group_by_columns [] eq_refl eq_refl
    ltac:(discriminate))).
Defined.

(** ** The outcomes of the join on one key *)

(** X4: on the records of one key, ReshapeData yields nothing when
    dataset A has no record under the key; otherwise it raises
    [IndexError] when dataset B has none, raises [KeyError] when the
    first record of dataset B has no tier, and else yields every record
    of dataset A with that tier and all its other fields unchanged. *)
Theorem X4_ReshapeData_outcomes :
  forall (k : val) (dataset1 dataset2 : list dict),
    match dataset1, dataset2 with
    | [], _ => Beam.ReshapeData (k, (dataset1, dataset2)) = Ok []
    | _ :: _, [] =>
        Beam.ReshapeData (k, (dataset1, dataset2)) = Raise IndexError
    | _ :: _, b :: _ =>
        match b !! Some "tier" with
        | None => Beam.ReshapeData (k, (dataset1, dataset2)) = Raise KeyError
        | Some t =>
            exists out,
              Beam.ReshapeData (k, (dataset1, dataset2)) = Ok out /\
              Forall2 (fun (entry j : dict) =>
                         j !! Some "tier" = Some t /\
                         forall f, f <> Some "tier" -> j !! f = entry !! f)
                      dataset1 out
        end
    end.
Proof.
  intros k dataset1 dataset2.
  destruct dataset1 as [|a dataset1]; [reflexivity|].
  destruct dataset2 as [|b dataset2]; [reflexivity|].
  destruct (b !! Some "tier") as [t|] eqn:Ht.
  - rewrite (ReshapeData_Ok k (a :: dataset1) (b :: dataset2) t) by exact Ht.
    eexists. split; [reflexivity|].
    generalize (a :: dataset1). intros l.
    induction l as [|x l IH]; simpl; constructor; [|exact IH].
    split; [apply lookup_insert_eq|].
    intros f Hf. apply lookup_insert_ne. congruence.
  - apply mapM_cons_Raise. simpl. unfold getitem. rewrite Ht. reflexivity.
Qed.

(** ** The composite key: errors and collisions *)

Lemma mapM_getitem_Raise (element : dict) (keys : list string) (e : exn) :
  mapM (getitem element) keys = Raise e -> e = KeyError.
Proof.
  induction keys as [|k keys IH]; simpl; [discriminate|].
  destruct (getitem element k) as [v|e1] eqn:Hg; simpl.
  - destruct (mapM (getitem element) keys) as [vs|e2]; simpl; [discriminate|].
    intros H. injection H as <-. apply IH. reflexivity.
  - intros H. injection H as <-.
    unfold getitem in Hg. destruct (element !! Some k); [discriminate|].
    injection Hg as <-. reflexivity.
Qed.

Lemma mapM_as_str_Raise (vals : list val) :
  (exists v, v ∈ vals /\ forall s, v <> VStr s) ->
  mapM as_str vals = Raise TypeError.
Proof.
  intros (v & Hin & Hv). induction Hin as [v vals|v w vals _ IH]; simpl.
  - destruct v; try reflexivity. exfalso. exact (Hv s eq_refl).
  - destruct w; try reflexivity. simpl. rewrite (IH Hv). reflexivity.
Qed.

(** X5: the composite key of a record that lacks an attribute of the
    grouping key raises [KeyError]; when the record has them all but one
    of them is not a string, such as the [None] a short row is read
    with, it raises [TypeError]. *)
Theorem X5_CompositeKeyFn_errors :
  forall (keys : list string) (element : dict),
    ((exists k, k ∈ keys /\ element !! Some k = None) ->
     Beam.CompositeKeyFn keys element = Raise KeyError) /\
    ((forall k, k ∈ keys -> is_Some (element !! Some k)) ->
     (exists k v, k ∈ keys /\ element !! Some k = Some v /\
                  forall s, v <> VStr s) ->
     Beam.CompositeKeyFn keys element = Raise TypeError).
Proof.
  intros keys element. split.
  - intros (k & Hk & Hnone). unfold Beam.CompositeKeyFn.
    destruct (mapM_Raise (getitem element) keys k KeyError Hk) as [e He].
    { unfold getitem. rewrite Hnone. reflexivity. }
    rewrite He. rewrite (mapM_getitem_Raise element keys e He). reflexivity.
  - intros Hall (k & v & Hk & Hv & Hns). unfold Beam.CompositeKeyFn.
    destruct (mapM_total (getitem element) keys) as [vals Hvals].
    { apply Forall_forall. intros k' Hk'. destruct (Hall k' Hk') as [v' Hv'].
      exists v'. unfold getitem. rewrite Hv'. reflexivity. }
    rewrite Hvals. simpl. unfold py_join.
    rewrite mapM_as_str_Raise; [reflexivity|].
    exists v. split; [|exact Hns].
    apply mapM_Ok in Hvals. apply list_elem_of_lookup in Hk as [i Hi].
    destruct (Forall2_lookup_l _ _ _ _ _ Hvals Hi) as (v' & Hv' & Hget).
    unfold getitem in Hget. rewrite Hv in Hget. injection Hget as <-.
    eapply list_elem_of_lookup_2, Hv'.
Qed.

Lemma X5_CompositeKeyFn_errors_witness :
  Beam.CompositeKeyFn ["tier"; "legal_entity"]
    (Beam.DictReader_row ["counter_party"; "legal_entity"] ["CP1"; "LE1"])
  = Raise KeyError /\
  Beam.CompositeKeyFn ["counter_party"; "legal_entity"]
    (Beam.DictReader_row ["counter_party"; "legal_entity"] ["CP1"])
  = Raise TypeError.
Proof.
  split.
  - apply (proj1 (X5_CompositeKeyFn_errors _ _)).
    exists "tier". split; [left | reflexivity].
  - apply (proj2 (X5_CompositeKeyFn_errors _ _)).
    + intros k Hk.
      apply elem_of_cons in Hk as [->|Hk]; [eexists; reflexivity|].
      apply list_elem_of_singleton in Hk as ->. eexists. reflexivity.
    + exists "legal_entity", VNone.
      split; [right; left|]. split; [reflexivity | discriminate].
Defined.

Lemma string_app_assoc (a b c : string) : (a +:+ b) +:+ c = a +:+ (b +:+ c).
Proof.
  induction a as [|x a IH]; [reflexivity|].
  exact (f_equal (String x) IH).
Qed.

(** X6: for records whose grouping values hold no "-", the composite
    keys are equal exactly when the grouping values are: the grouping by
    composite key is then the grouping by the values. *)
Theorem X6_composite_key_injective :
  forall (keys : list string) (x y : dict) (vs ws : list string),
    keys <> [] ->
    Forall2 (fun k v => x !! Some k = Some (VStr v)) keys vs ->
    Forall2 (fun k v => y !! Some k = Some (VStr v)) keys ws ->
    Forall (fun v => has_char "-" v = false) vs ->
    Forall (fun v => has_char "-" v = false) ws ->
    ((exists ck, Beam.CompositeKeyFn keys x = Ok [(ck, x)] /\
                 Beam.CompositeKeyFn keys y = Ok [(ck, y)]) <->
     vs = ws).
Proof.
  intros keys x y vs ws Hne Hx Hy Hvs Hws.
  rewrite (CompositeKeyFn_Ok keys x vs Hx), (CompositeKeyFn_Ok keys y ws Hy).
  assert (vs <> []) as Hvne.
  { intros ->. apply Forall2_length in Hx. destruct keys; [contradiction|discriminate]. }
  assert (ws <> []) as Hwne.
  { intros ->. apply Forall2_length in Hy. destruct keys; [contradiction|discriminate]. }
  split.
  - intros (ck & [= <-] & [= Heq]).
    rewrite <- (split_join "-" vs Hvne Hvs), <- (split_join "-" ws Hwne Hws).
    rewrite Heq. reflexivity.
  - intros ->. eexists. split; reflexivity.
Qed.

Lemma X6_composite_key_injective_witness :
  (exists ck,
     Beam.CompositeKeyFn ["tier"; "legal_entity"]
       (joined "CP1" "LE1" "5" "100" "ARAP" "T1")
     = Ok [(ck, joined "CP1" "LE1" "5" "100" "ARAP" "T1")] /\
     Beam.CompositeKeyFn ["tier"; "legal_entity"]
       (joined "CP1" "LE1" "3" "50" "ACCR" "T1")
     = Ok [(ck, joined "CP1" "LE1" "3" "50" "ACCR" "T1")]).
Proof.
  apply (X6_composite_key_injective ["tier"; "legal_entity"]
           (joined "CP1" "LE1" "5" "100" "ARAP" "T1")
           (joined "CP1" "LE1" "3" "50" "ACCR" "T1")
           ["T1"; "LE1"] ["T1"; "LE1"]).
  - discriminate.
  - repeat constructor.
  - repeat constructor.
  - repeat constructor.
  - repeat constructor.
  - reflexivity.
Defined.

(** ** One aggregate for each composite key *)

Lemma ParDo_ExtractAndSum_Forall2 (groups : list (string * list dict))
    (aggs : list Beam.aggregate) :
  Beam.ParDo Beam.ExtractAndSum groups = Ok aggs ->
  Forall2 (fun (g : string * list dict) agg =>
             Beam.agg_key agg = g.1 /\
             Beam.total agg = Z.of_nat (length g.2)) groups aggs.
Proof.
  intros H. apply ParDo_Ok in H as (outs & Houts & ->).
  induction Houts as [|[k data] ys groups outs Hy _ IH]; simpl; [constructor|].
  apply ExtractAndSum_inv in Hy as (agg & -> & Hk & Ht).
  simpl. constructor; [split; assumption | exact IH].
Qed.

Lemma GroupByKey_keys {K V : Type} `{EqDecision K} (l : list (K * V)) (k : K) :
  k ∈ map fst (Beam.GroupByKey l) <-> k ∈ map fst l.
Proof.
  destruct (GroupByKey_spec l) as (_ & Hperm & Hgrp). split.
  - intros Hin. apply list_elem_of_fmap in Hin as ([k' vs] & -> & Hg). simpl.
    destruct (Hgrp k' vs Hg) as [_ Hne].
    destruct vs as [|v vs]; [contradiction|].
    assert ((k', v) ∈ l) as Hl.
    { rewrite <- Hperm. unfold flat. apply list_elem_of_bind.
      exists (k', v :: vs). split; [left | exact Hg]. }
    apply list_elem_of_fmap. exists (k', v). split; [reflexivity | exact Hl].
  - intros Hin. apply list_elem_of_fmap in Hin as ([k' v] & -> & Hl). simpl.
    destruct (GroupByKey_elem l k' v Hl) as (vs & Hg & _).
    apply list_elem_of_fmap. exists (k', vs). split; [reflexivity | exact Hg].
Qed.

Lemma aggregates_keys (keys : list string) (merged : list dict)
    (aggs : list Beam.aggregate) :
  Beam.aggregates keys merged = Ok aggs ->
  exists keyed,
    Beam.ParDo (Beam.CompositeKeyFn keys) merged = Ok keyed /\
    map snd keyed = merged /\
    NoDup (map Beam.agg_key aggs) /\
    (forall ck, ck ∈ map Beam.agg_key aggs <-> ck ∈ map fst keyed) /\
    Forall (fun agg =>
              Beam.total agg
              = Z.of_nat (length (filter (fun kx : string * dict =>
                                            kx.1 = Beam.agg_key agg) keyed)))
           aggs.
Proof.
  unfold Beam.aggregates. intros H.
  apply bind_Ok in H as (keyed & Hkeyed & H).
  exists keyed. split; [exact Hkeyed|].
  split; [exact (ParDo_CompositeKeyFn_length keys merged keyed Hkeyed)|].
  apply ParDo_ExtractAndSum_Forall2 in H. unfold Beam.GroupBy in H.
  set (keyed' := map (fun x : string * dict => (x.1, x)) keyed) in *.
  destruct (GroupByKey_spec keyed') as (Hnd & _ & Hgrp).
  assert (map Beam.agg_key aggs = map fst (Beam.GroupByKey keyed')) as Hkeys.
  { revert H. generalize (Beam.GroupByKey keyed'). intros G. revert aggs.
    induction G as [|g G IH]; intros aggs H; inversion H as [|? agg ? aggs' [Hk _] Hrest]; subst;
      [reflexivity|].
    simpl. rewrite Hk. f_equal. apply IH, Hrest. }
  assert (map fst keyed' = map fst keyed) as Hfst.
  { unfold keyed'. rewrite map_map. reflexivity. }
  split; [rewrite Hkeys; exact Hnd|].
  split; [intros ck; rewrite Hkeys, GroupByKey_keys, Hfst; reflexivity|].
  apply Forall_forall. intros agg Hagg.
  apply list_elem_of_lookup in Hagg as [i Hi].
  destruct (Forall2_lookup_r _ _ _ _ _ H Hi) as ([k data] & Hg & Hk & Ht).
  simpl in Hk, Ht. rewrite Ht, Hk. f_equal.
  apply list_lookup_fmap_Some in Hg as ([k' vs] & [= -> ->] & Hg).
  apply list_elem_of_lookup_2 in Hg. destruct (Hgrp _ _ Hg) as [-> _].
  simpl. rewrite length_map. unfold values_of, keyed'. rewrite length_map.
  clear. induction keyed as [|[k0 x0] keyed IH]; [reflexivity|].
  simpl map. rewrite !filter_cons. simpl.
  destruct (decide (k0 = k')); simpl; rewrite IH; reflexivity.
Qed.

(** X7: a branch yields one aggregate for each distinct composite key of
    the joined records, and its total is the number of records with
    that composite key. *)
Theorem X7_one_aggregate_per_composite_key :
  forall (keys : list string) (merged : list dict) (aggs : list Beam.aggregate),
    Beam.aggregates keys merged = Ok aggs ->
    exists keyed,
      Beam.ParDo (Beam.CompositeKeyFn keys) merged = Ok keyed /\
      map snd keyed = merged /\
      NoDup (map Beam.agg_key aggs) /\
      (forall ck, ck ∈ map Beam.agg_key aggs <-> ck ∈ map fst keyed) /\
      Forall (fun agg =>
                Beam.total agg
                = Z.of_nat (length (filter (fun kx : string * dict =>
                                              kx.1 = Beam.agg_key agg) keyed)))
             aggs.
Proof. exact aggregates_keys. Qed.

Lemma X7_one_aggregate_per_composite_key_witness :
  exists keyed,
    Beam.ParDo (Beam.CompositeKeyFn ["tier"]) ex_merged = Ok keyed /\
    map snd keyed = ex_merged.
Proof.
  destruct (X7_one_aggregate_per_composite_key ["tier"] ex_merged
              [Beam.Aggregate "T1" 5 100 50 2])
    as (keyed & Hk & Hs & _).
  - vm_compute. reflexivity.
  - exists keyed. split; assumption.
Defined.

(** X8: two records whose legal_entity and counter_party are a-b, c and
    a, b-c have the same composite key for the grouping key
    legal_entity, counter_party, and a branch that aggregates the two
    puts them into one partition. *)
Theorem X8_composite_key_collision :
  forall (a b c : string) (x y : dict),
    x !! Some "legal_entity" = Some (VStr (a +:+ "-" +:+ b)) ->
    x !! Some "counter_party" = Some (VStr c) ->
    y !! Some "legal_entity" = Some (VStr a) ->
    y !! Some "counter_party" = Some (VStr (b +:+ "-" +:+ c)) ->
    (exists ck,
       Beam.CompositeKeyFn ["legal_entity"; "counter_party"] x = Ok [(ck, x)] /\
       Beam.CompositeKeyFn ["legal_entity"; "counter_party"] y = Ok [(ck, y)]) /\
    forall aggs,
      Beam.aggregates ["legal_entity"; "counter_party"] [x; y] = Ok aggs ->
      exists agg, aggs = [agg] /\ Beam.total agg = 2.
Proof.
  intros a b c x y Hx1 Hx2 Hy1 Hy2.
  assert (Beam.CompositeKeyFn ["legal_entity"; "counter_party"] x
          = Ok [(a +:+ "-" +:+ b +:+ "-" +:+ c, x)]) as Hx.
  { rewrite (CompositeKeyFn_Ok _ x [a +:+ "-" +:+ b; c])
      by (repeat constructor; assumption).
    simpl. rewrite !string_app_assoc. reflexivity. }
  assert (Beam.CompositeKeyFn ["legal_entity"; "counter_party"] y
          = Ok [(a +:+ "-" +:+ b +:+ "-" +:+ c, y)]) as Hy.
  { rewrite (CompositeKeyFn_Ok _ y [a; b +:+ "-" +:+ c])
      by (repeat constructor; assumption).
    reflexivity. }
  split; [eexists; split; eassumption|].
  intros aggs Haggs. unfold Beam.aggregates in Haggs.
  assert (Beam.ParDo (Beam.CompositeKeyFn ["legal_entity"; "counter_party"])
            [x; y]
          = Ok [(a +:+ "-" +:+ b +:+ "-" +:+ c, x);
                (a +:+ "-" +:+ b +:+ "-" +:+ c, y)]) as Hk.
  { unfold Beam.ParDo. simpl mapM. rewrite Hx. simpl. rewrite Hy. reflexivity. }
  rewrite Hk in Haggs. simpl in Haggs.
  unfold Beam.GroupBy, Beam.GroupByKey in Haggs. simpl in Haggs.
  destruct (decide (a +:+ "-" +:+ b +:+ "-" +:+ c
                    = a +:+ "-" +:+ b +:+ "-" +:+ c)); [|contradiction].
  simpl in Haggs.
  apply ParDo_ExtractAndSum_Forall2 in Haggs.
  inversion Haggs as [|? agg ? aggs' [_ Ht] Hrest]; subst.
  inversion Hrest; subst. exists agg. split; [reflexivity | exact Ht].
Qed.

Lemma X8_composite_key_collision_witness :
  exists ck,
    Beam.CompositeKeyFn ["legal_entity"; "counter_party"]
      (joined "C" "A-B" "5" "100" "ARAP" "T1")
    = Ok [(ck, joined "C" "A-B" "5" "100" "ARAP" "T1")] /\
    Beam.CompositeKeyFn ["legal_entity"; "counter_party"]
      (joined "B-C" "A" "3" "50" "ACCR" "T1")
    = Ok [(ck, joined "B-C" "A" "3" "50" "ACCR" "T1")].
Proof.
  apply (proj1 (X8_composite_key_collision "A" "B" "C"
                  (joined "C" "A-B" "5" "100" "ARAP" "T1")
                  (joined "B-C" "A" "3" "50" "ACCR" "T1")
                  eq_refl eq_refl eq_refl eq_refl)).
Defined.

(** ** The aggregates do not depend on the order of the members *)

Lemma mapM_Permutation {A B : Type} (f : A -> result B) (l l' : list A) :
  l ≡ₚ l' ->
  forall k, mapM f l = Ok k -> exists k', mapM f l' = Ok k' /\ k ≡ₚ k'.
Proof.
  induction 1 as [|x l l' _ IH|x y l|l l' l'' _ IH1 _ IH2]; intros k Hk.
  - exists k. split; [exact Hk | reflexivity].
  - simpl in Hk. apply bind_Ok in Hk as (b & Hb & Hk).
    apply bind_Ok in Hk as (k0 & Hk0 & [= <-]).
    destruct (IH k0 Hk0) as (k0' & Hk0' & Hp).
    exists (b :: k0'). simpl. rewrite Hb. simpl. rewrite Hk0'.
    split; [reflexivity|]. constructor. exact Hp.
  - simpl in Hk. apply bind_Ok in Hk as (b & Hb & Hk).
    apply bind_Ok in Hk as (k1 & Hk1 & [= <-]).
    apply bind_Ok in Hk1 as (a & Ha & Hk1).
    apply bind_Ok in Hk1 as (k0 & Hk0 & [= <-]).
    exists (a :: b :: k0). simpl. rewrite Ha. simpl. rewrite Hb. simpl.
    rewrite Hk0. split; [reflexivity | apply perm_swap].
  - destruct (IH1 k Hk) as (k' & Hk' & Hp).
    destruct (IH2 k' Hk') as (k'' & Hk'' & Hp').
    exists k''. split; [exact Hk'' | etransitivity; eassumption].
Qed.

Lemma values_where_cons (tag : string) (x : dict) (data : list dict)
    (k : list Z) :
  Beam.values_where tag (x :: data) = Ok k <->
  exists st rest,
    getitem x "status" = Ok st /\
    Beam.values_where tag data = Ok rest /\
    ((st = VStr tag /\ exists i, value_of x = Ok i /\ k = i :: rest) \/
     (st <> VStr tag /\ k = rest)).
Proof.
  simpl. unfold value_of. split.
  - intros H. apply bind_Ok in H as (st & Hst & H).
    destruct (decide (st = VStr tag)) as [Heq|Hne].
    + apply bind_Ok in H as (v & Hv & H).
      apply bind_Ok in H as (i & Hi & H).
      apply bind_Ok in H as (rest & Hrest & [= <-]).
      exists st, rest. split; [exact Hst|]. split; [exact Hrest|].
      left. split; [exact Heq|]. exists i. rewrite Hv. simpl.
      split; [exact Hi | reflexivity].
    + exists st, k. split; [exact Hst|]. split; [exact H|].
      right. split; [exact Hne | reflexivity].
  - intros (st & rest & Hst & Hrest & [[Heq (i & Hi & ->)]|[Hne ->]]);
      rewrite Hst; simpl.
    + destruct (decide (st = VStr tag)); [|contradiction].
      destruct (getitem x "value") as [v|e1]; simpl in *; [|discriminate].
      rewrite Hi. simpl. rewrite Hrest. reflexivity.
    + destruct (decide (st = VStr tag)); [contradiction | exact Hrest].
Qed.

Lemma values_where_Permutation (tag : string) (data data' : list dict) :
  data ≡ₚ data' ->
  forall k, Beam.values_where tag data = Ok k ->
            exists k', Beam.values_where tag data' = Ok k' /\ k ≡ₚ k'.
Proof.
  induction 1 as [|x l l' _ IH|x y l|l l' l'' _ IH1 _ IH2]; intros k Hk.
  - exists k. split; [exact Hk | reflexivity].
  - apply values_where_cons in Hk as (st & rest & Hst & Hrest & Hcase).
    destruct (IH rest Hrest) as (rest' & Hrest' & Hp).
    destruct Hcase as [[Heq (i & Hi & ->)]|[Hne ->]].
    + exists (i :: rest'). split; [|constructor; exact Hp].
      apply values_where_cons. exists st, rest'.
      split; [exact Hst|]. split; [exact Hrest'|]. left. eauto.
    + exists rest'. split; [|exact Hp].
      apply values_where_cons. exists st, rest'.
      split; [exact Hst|]. split; [exact Hrest'|]. right. eauto.
  - apply values_where_cons in Hk as (sty & resty & Hsty & Hresty & Hy).
    apply values_where_cons in Hresty as (stx & rest & Hstx & Hrest & Hx).
    assert (exists kx, Beam.values_where tag (x :: l) = Ok kx /\
              ((stx = VStr tag /\ exists i, value_of x = Ok i /\ kx = i :: rest) \/
               (stx <> VStr tag /\ kx = rest))) as (kx & Hkx & Hx').
    { destruct Hx as [[Heq (i & Hi & Hr)]|[Hne Hr]].
      - exists (i :: rest). split; [|left; eauto].
        apply values_where_cons. exists stx, rest. split; [exact Hstx|].
        split; [exact Hrest|]. left. eauto.
      - exists rest. split; [|right; eauto].
        apply values_where_cons. exists stx, rest. split; [exact Hstx|].
        split; [exact Hrest|]. right. eauto. }
    destruct Hy as [[Heqy (j & Hj & ->)]|[Hney ->]];
      destruct Hx as [[Heqx (i & Hi & ->)]|[Hnex ->]].
    + exists (i :: j :: rest). split; [|apply perm_swap].
      apply values_where_cons. exists stx, (j :: rest). split; [exact Hstx|].
      split; [|left; eauto].
      apply values_where_cons. exists sty, rest. split; [exact Hsty|].
      split; [exact Hrest|]. left. eauto.
    + exists (j :: rest). split; [|reflexivity].
      apply values_where_cons. exists stx, (j :: rest). split; [exact Hstx|].
      split; [|right; eauto].
      apply values_where_cons. exists sty, rest. split; [exact Hsty|].
      split; [exact Hrest|]. left. eauto.
    + exists (i :: rest). split; [|reflexivity].
      apply values_where_cons. exists stx, rest. split; [exact Hstx|].
      split; [|left; eauto].
      apply values_where_cons. exists sty, rest. split; [exact Hsty|].
      split; [exact Hrest|]. right. eauto.
    + exists rest. split; [|reflexivity].
      apply values_where_cons. exists stx, rest. split; [exact Hstx|].
      split; [|right; eauto].
      apply values_where_cons. exists sty, rest. split; [exact Hsty|].
      split; [exact Hrest|]. right. eauto.
  - destruct (IH1 k Hk) as (k' & Hk' & Hp).
    destruct (IH2 k' Hk') as (k'' & Hk'' & Hp').
    exists k''. split; [exact Hk'' | etransitivity; eassumption].
Qed.

Lemma Zsum_Permutation (l l' : list Z) : l ≡ₚ l' -> Zsum l = Zsum l'.
Proof.
  unfold Zsum. induction 1; simpl; lia.
Qed.

Lemma py_max_Permutation (l l' : list Z) (m : Z) :
  l ≡ₚ l' -> py_max l = Ok m -> py_max l' = Ok m.
Proof.
  intros Hp Hm.
  assert (l <> []) as Hne by (intros ->; discriminate).
  assert (l' <> []) as Hne'.
  { intros ->. apply Permutation_nil_r in Hp. contradiction. }
  destruct (py_max_spec l Hne) as (m0 & Hm0 & Hin & Hub).
  destruct (py_max_spec l' Hne') as (m' & Hm' & Hin' & Hub').
  rewrite Hm in Hm0. injection Hm0 as <-.
  rewrite Hm'. f_equal.
  assert (m' <= m) by (apply Hub; rewrite Hp; exact Hin').
  assert (m <= m') by (apply Hub'; rewrite <- Hp; exact Hin).
  lia.
Qed.

(** X9: the aggregate of a partition does not depend on the order in
    which its members arrive: when ExtractAndSum yields a result on a
    list of records, it yields the same on every rearrangement. *)
Theorem X9_ExtractAndSum_order_independent :
  forall (key : string) (data data' : list dict) (out : list Beam.aggregate),
    data ≡ₚ data' ->
    Beam.ExtractAndSum (key, data) = Ok out ->
    Beam.ExtractAndSum (key, data') = Ok out.
Proof.
  intros key data data' out Hp H. unfold Beam.ExtractAndSum in *.
  apply bind_Ok in H as (rs & Hrs & H).
  apply bind_Ok in H as (mx & Hmx & H).
  apply bind_Ok in H as (arap & Harap & H).
  apply bind_Ok in H as (accr & Haccr & [= <-]).
  destruct (mapM_Permutation _ data data' Hp rs Hrs) as (rs' & Hrs' & Hprs).
  destruct (values_where_Permutation "ARAP" data data' Hp arap Harap)
    as (arap' & Harap' & Hpa).
  destruct (values_where_Permutation "ACCR" data data' Hp accr Haccr)
    as (accr' & Haccr' & Hpc).
  unfold Beam.ratings. rewrite Hrs'. simpl.
  rewrite (py_max_Permutation rs rs' mx Hprs Hmx). simpl.
  rewrite Harap', Haccr'. simpl.
  rewrite !py_sum_Zsum.
  rewrite <- (Zsum_Permutation arap arap' Hpa).
  rewrite <- (Zsum_Permutation accr accr' Hpc).
  rewrite (Permutation_length Hp). reflexivity.
Qed.

Lemma X9_ExtractAndSum_order_independent_witness :
  Beam.ExtractAndSum ("T1", reverse ex_merged)
  = Ok [Beam.Aggregate "T1" 5 100 50 2].
Proof.
  apply (X9_ExtractAndSum_order_independent "T1" ex_merged (reverse ex_merged)).
  - symmetry. apply reverse_Permutation.
  - vm_compute. reflexivity.
Defined.

(** ** From the aggregates to the file *)

Lemma mapM_Raise_inv {A B : Type} (f : A -> result B) (l : list A) (e : exn) :
  mapM f l = Raise e -> exists x, x ∈ l /\ f x = Raise e.
Proof.
  induction l as [|x l IH]; simpl; [discriminate|].
  destruct (f x) as [b|e1] eqn:Hx; simpl.
  - destruct (mapM f l) as [k|e2]; simpl; [discriminate|].
    intros H. injection H as <-.
    destruct (IH eq_refl) as (y & Hy & Hfy).
    exists y. split; [right; exact Hy | exact Hfy].
  - intros H. injection H as <-. exists x. split; [left | exact Hx].
Qed.

Lemma cells_total (row : dict) :
  (forall h, h ∈ Beam.headers -> is_Some (row !! Some h)) ->
  exists cs, cells row = Ok cs.
Proof.
  intros Hrow. unfold cells. apply mapM_total. apply Forall_forall.
  intros h Hh. destruct (Hrow h Hh) as [c Hc].
  exists c. unfold getitem. rewrite Hc. reflexivity.
Qed.

(** Whatever the grouping key, the row that PrepareOutputData yields
    has the six columns of the header. *)
Lemma PrepareOutputData_total (keys : list string) (agg : Beam.aggregate) :
  (length keys <= length (split "-" (Beam.agg_key agg)))%nat ->
  exists row, Beam.PrepareOutputData keys agg = Ok [row] /\
    forall h, h ∈ Beam.headers -> is_Some (row !! Some h).
Proof.
  intros Hlen. unfold Beam.PrepareOutputData.
  destruct (fill_keys_spec (split "-" (Beam.agg_key agg)) keys 0 ∅)
    as (d & Hd & _); [simpl; lia|].
  rewrite Hd. simpl. eexists. split; [reflexivity|].
  intros h Hh. unfold Beam.headers in Hh.
  assert (forall c, c ∈ Beam.aggr_columns ->
            is_Some (Beam.back_fill (Beam.total agg) d !! Some c)) as Hfill.
  { intros c Hc. rewrite back_fill_lookup.
    destruct (d !! Some c); [eauto|].
    destruct (decide (c ∈ Beam.aggr_columns)); [eauto | contradiction]. }
  repeat (apply elem_of_cons in Hh as [->|Hh]).
  - do 3 (rewrite lookup_insert_ne by discriminate). apply Hfill. left.
  - do 3 (rewrite lookup_insert_ne by discriminate). apply Hfill. right. left.
  - do 3 (rewrite lookup_insert_ne by discriminate). apply Hfill.
    right. right. left.
  - do 2 (rewrite lookup_insert_ne by discriminate).
    rewrite lookup_insert_eq. eauto.
  - rewrite lookup_insert_ne by discriminate. rewrite lookup_insert_eq. eauto.
  - rewrite lookup_insert_eq. eauto.
  - apply elem_of_nil in Hh. contradiction.
Qed.

Lemma output_rows_total (keys : list string) (merged : list dict)
    (aggs : list Beam.aggregate) :
  Beam.aggregates keys merged = Ok aggs ->
  exists rows written,
    Beam.output_rows keys merged = Ok rows /\
    mapM cells rows = Ok written /\
    length written = length aggs.
Proof.
  intros Haggs.
  destruct (aggregates_keys keys merged aggs Haggs)
    as (keyed & Hkeyed & _ & _ & Hck & _).
  assert (Forall (fun agg => exists row,
            Beam.PrepareOutputData keys agg = Ok [row] /\
            forall h, h ∈ Beam.headers -> is_Some (row !! Some h)) aggs)
    as Hall.
  { apply Forall_forall. intros agg Hagg.
    apply PrepareOutputData_total.
    assert (Beam.agg_key agg ∈ map fst keyed) as Hin.
    { apply Hck. apply list_elem_of_fmap. exists agg. split; [reflexivity | exact Hagg]. }
    apply list_elem_of_fmap in Hin as ([ck x] & Hk & Hin). simpl in Hk.
    apply ParDo_Ok in Hkeyed as (outs & Houts & ->).
    apply list_elem_of_join in Hin as (ys & Hy & Hys).
    apply list_elem_of_lookup in Hys as [i Hi].
    destruct (Forall2_lookup_r _ _ _ _ _ Houts Hi) as (x' & _ & Hx').
    apply CompositeKeyFn_inv in Hx' as (values & Hvals & ->).
    apply list_elem_of_singleton in Hy. injection Hy as -> ->.
    rewrite Hk, (Forall2_length _ _ _ Hvals). apply split_join_length. }
  unfold Beam.output_rows. rewrite Haggs. simpl.
  clear Haggs Hck Hkeyed.
  induction Hall as [|agg aggs (row & Hrow & Hh) _ (rows & written & Hr & Hw & Hl)].
  - exists [], []. repeat split; reflexivity.
  - destruct (cells_total row Hh) as [cs Hcs].
    exists (row :: rows), (cs :: written).
    unfold Beam.ParDo in *. simpl. rewrite Hrow. simpl.
    apply fmap_Ok in Hr as (outs & -> & ->). simpl.
    split; [reflexivity|]. rewrite Hcs. simpl. rewrite Hw. simpl.
    split; [reflexivity|]. rewrite Hl. reflexivity.
Qed.

(** X10: once a branch has its aggregates, formatting and writing cannot
    fail, whatever the grouping key: the branch appends one row for each
    aggregate, after the header when the file is empty. *)
Theorem X10_branch_writes_every_aggregate :
  forall (keys : list string) (merged : list dict) (aggs : list Beam.aggregate)
         (file : Beam.csv_file),
    Beam.aggregates keys merged = Ok aggs ->
    exists written,
      Beam.branch merged file keys
      = Ok ((if decide (file = []) then [Beam.header_row] else file) ++ written) /\
      length written = length aggs.
Proof.
  intros keys merged aggs file Haggs.
  destruct (output_rows_total keys merged aggs Haggs)
    as (rows & written & Hrows & Hw & Hlen).
  exists written. split; [|exact Hlen].
  unfold Beam.branch. rewrite Hrows. simpl.
  apply SaveOutputToCsv_Ok. exists written. split; [exact Hw | reflexivity].
Qed.

Lemma X10_branch_writes_every_aggregate_witness :
  exists written,
    Beam.branch ex_merged [] ["tier"] = Ok ([Beam.header_row] ++ written) /\
    length written = 1%nat.
Proof.
  apply (X10_branch_writes_every_aggregate ["tier"] ex_merged
           [Beam.Aggregate "T1" 5 100 50 2] []).
  vm_compute. reflexivity.
Defined.

(** X11: on joined records that are well formed for every grouping key
    of the schedule, every branch runs through: the run returns a file. *)
Theorem X11_run_succeeds_on_well_formed :
  forall (merged : list dict) (schedule : list (list string))
         (file : Beam.csv_file),
    Forall (fun keys => Forall (well_formed keys) merged) schedule ->
    exists file', Beam.run_branches merged schedule file = Ok file'.
Proof.
  intros merged schedule. induction schedule as [|keys rest IH];
    intros file Hwf.
  - eexists. reflexivity.
  - apply Forall_cons in Hwf as [Hkeys Hrest].
    destruct (aggregates_Ok keys merged Hkeys) as [aggs Haggs].
    destruct (output_rows_total keys merged aggs Haggs)
      as (rows & written & Hrows & Hw & _).
    simpl. unfold Beam.branch. rewrite Hrows. simpl.
    unfold Beam.SaveOutputToCsv. fold cells. rewrite Hw. simpl.
    apply IH, Hrest.
Qed.

Lemma X11_run_succeeds_on_well_formed_witness :
  exists file',
    Beam.run_branches ex_merged [["tier"]; ["legal_entity"]] [] = Ok file'.
Proof.
  apply X11_run_succeeds_on_well_formed.
  repeat constructor.
  - exists ["T1"]. repeat constructor.
  - exists (Member 5 (VStr "ARAP") 100). repeat constructor.
  - exists ["T1"]. repeat constructor.
  - exists (Member 3 (VStr "ACCR") 50). repeat constructor.
  - exists ["LE1"]. repeat constructor.
  - exists (Member 5 (VStr "ARAP") 100). repeat constructor.
  - exists ["LE1"]. repeat constructor.
  - exists (Member 3 (VStr "ACCR") 50). repeat constructor.
Defined.

(** ** Running twice *)

(** A run appends to the file the rows of its branches, branch by branch
    in the order in which they run. *)
Lemma run_branches_rows (merged : list dict) (schedule : list (list string))
    (written : list (list (list val))) :
  Forall2 (fun keys rows => branch_rows merged keys = Ok rows)
          schedule written ->
  forall file : Beam.csv_file,
    Beam.run_branches merged schedule file
    = Ok ((if decide (file = []) then
             match schedule with [] => [] | _ => [Beam.header_row] end
           else file) ++ mjoin written).
Proof.
  induction 1 as [|keys rows schedule written Hrows _ IH]; intros file.
  - simpl. rewrite app_nil_r.
    destruct (decide (file = [])) as [->|_]; reflexivity.
  - unfold branch_rows in Hrows. apply bind_Ok in Hrows as (out & Hout & Hrows).
    simpl. unfold Beam.branch. rewrite Hout. simpl.
    unfold Beam.SaveOutputToCsv. fold cells. rewrite Hrows. simpl.
    rewrite IH. f_equal. rewrite app_assoc.
    destruct (decide (_ ++ rows = [])) as [Heq|_]; [|reflexivity].
    exfalso. apply app_eq_nil in Heq as [Heq _].
    destruct (decide (file = [])); [discriminate | contradiction].
Qed.

Lemma written_rows (merged : list dict) (schedule : list (list string))
    (written : list (list (list val))) :
  Forall2 (fun keys rows => exists out,
             Beam.output_rows keys merged = Ok out /\
             mapM cells out = Ok rows) schedule written ->
  Forall2 (fun keys rows => branch_rows merged keys = Ok rows)
          schedule written.
Proof.
  intros H. eapply Forall2_impl; [exact H|].
  intros keys rows (out & Hout & Hrows).
  unfold branch_rows. rewrite Hout. exact Hrows.
Qed.

Lemma written_not_header (merged : list dict) (schedule : list (list string))
    (written : list (list (list val))) :
  Forall2 (fun keys rows => branch_rows merged keys = Ok rows)
          schedule written ->
  Beam.header_row ∉ mjoin written.
Proof.
  induction 1 as [|k rows sch wr Hr _ IH].
  - apply not_elem_of_nil.
  - unfold branch_rows in Hr. apply bind_Ok in Hr as (out & Ho & Hr).
    simpl. rewrite elem_of_app. intros [Hin|Hin]; [|exact (IH Hin)].
    exact (output_rows_not_header k merged out rows Ho Hr Hin).
Qed.

(** Branches that run in another order write the same rows in another
    order. *)
Lemma Forall2_Permutation_l {A B : Type} (R : A -> B -> Prop) (l l' : list A) :
  l ≡ₚ l' ->
  forall k, Forall2 R l k -> exists k', Forall2 R l' k' /\ k ≡ₚ k'.
Proof.
  induction 1 as [|x l l' _ IH|x y l|l1 l2 l3 _ IH1 _ IH2]; intros k Hk.
  - exists k. split; [exact Hk | reflexivity].
  - inversion Hk as [|? z ? k0 Hz Hk0]; subst.
    destruct (IH k0 Hk0) as (k' & Hk' & Hp).
    exists (z :: k'). split; [constructor; assumption|].
    apply Permutation_cons; [reflexivity | exact Hp].
  - inversion Hk as [|? z ? k0 Hz Hk0]; subst.
    inversion Hk0 as [|? w ? k1 Hw Hk1]; subst.
    exists (w :: z :: k1). split.
    + constructor; [exact Hw|]. constructor; assumption.
    + apply perm_swap.
  - destruct (IH1 k Hk) as (k2 & Hk2 & Hp2).
    destruct (IH2 k2 Hk2) as (k3 & Hk3 & Hp3).
    exists k3. split; [exact Hk3|]. etransitivity; eassumption.
Qed.

Lemma mjoin_Permutation {A : Type} (l l' : list (list A)) :
  l ≡ₚ l' -> mjoin l ≡ₚ mjoin l'.
Proof.
  induction 1 as [|x l l' _ IH|x y l|l1 l2 l3 _ IH1 _ IH2]; simpl.
  - reflexivity.
  - apply Permutation_app_head, IH.
  - rewrite !app_assoc. apply Permutation_app_tail, Permutation_app_comm.
  - etransitivity; eassumption.
Qed.

(** X12: a run that filled an empty file with the header and the rows
    of its branches, followed by a second run of the same branches, in
    whatever order, on that file: the second run appends no second
    header; it appends the rows of its branches in the order in which
    they run, which are the rows of the first run, in the same order
    when the branches run in the same order. *)
Theorem X12_second_run_appends_rows :
  forall (merged : list dict) (schedule1 schedule2 : list (list string))
         (file1 : Beam.csv_file),
    schedule1 <> [] -> schedule1 ≡ₚ schedule2 ->
    Beam.run_branches merged schedule1 [] = Ok file1 ->
    exists written1 written2 : list (list (list val)),
      Forall2 (fun keys rows => branch_rows merged keys = Ok rows)
              schedule1 written1 /\
      Forall2 (fun keys rows => branch_rows merged keys = Ok rows)
              schedule2 written2 /\
      file1 = Beam.header_row :: mjoin written1 /\
      Beam.run_branches merged schedule2 file1
      = Ok (Beam.header_row :: mjoin written1 ++ mjoin written2) /\
      mjoin written1 ≡ₚ mjoin written2 /\
      (Beam.header_row ∉ mjoin written1 ++ mjoin written2) /\
      (schedule2 = schedule1 -> written2 = written1).
Proof.
  intros merged schedule1 schedule2 file1 Hne Hperm H1.
  destruct (run_branches_Ok merged schedule1 [] file1 H1) as (written1 & Hw & Hf).
  apply written_rows in Hw.
  destruct (Forall2_Permutation_l _ _ _ Hperm written1 Hw)
    as (written2 & Hw2 & Hp).
  exists written1, written2.
  assert (file1 = Beam.header_row :: mjoin written1) as ->.
  { rewrite Hf. destruct schedule1; [contradiction | reflexivity]. }
  split; [exact Hw|]. split; [exact Hw2|]. split; [reflexivity|].
  split; [|split; [|split]].
  - rewrite (run_branches_rows merged schedule2 written2 Hw2). reflexivity.
  - apply mjoin_Permutation, Hp.
  - rewrite elem_of_app. intros [Hin|Hin].
    + exact (written_not_header merged _ _ Hw Hin).
    + exact (written_not_header merged _ _ Hw2 Hin).
  - intros ->. clear -Hw Hw2. revert written2 Hw2.
    induction Hw as [|keys rows sch wr Hr _ IH]; intros written2 Hw2.
    + inversion Hw2. reflexivity.
    + inversion Hw2 as [|? rows' ? wr' Hr' Hwr']; subst.
      rewrite Hr in Hr'. injection Hr' as <-. f_equal. apply IH, Hwr'.
Qed.

Lemma X12_second_run_appends_rows_witness :
  exists written1 written2 : list (list (list val)),
    ex_report = Beam.header_row :: mjoin written1 /\
    Beam.run_branches ex_merged (reverse Beam.group_by_columns) ex_report
    = Ok (Beam.header_row :: mjoin written1 ++ mjoin written2) /\
    mjoin written1 ≡ₚ mjoin written2.
Proof.
  destruct (X12_second_run_appends_rows ex_merged Beam.group_by_columns
              (reverse Beam.group_by_columns) ex_report)
    as (written1 & written2 & _ & _ & Hf & Hrun & Hp & _).
  - discriminate.
  - symmetry. apply reverse_Permutation.
  - vm_compute. reflexivity.
  - exists written1, written2. split; [exact Hf|]. split; assumption.
Defined.

(** ** The writer: missing and surplus columns *)

Lemma mapM_ext_in {A B : Type} (f g : A -> result B) (l : list A) :
  (forall x, x ∈ l -> f x = g x) -> mapM f l = mapM g l.
Proof.
  induction l as [|x l IH]; intros H; [reflexivity|].
  simpl. rewrite (H x) by left. rewrite IH; [reflexivity|].
  intros y Hy. apply H. right. exact Hy.
Qed.

Lemma cells_Raise (row : dict) (e : exn) : cells row = Raise e -> e = KeyError.
Proof. apply mapM_getitem_Raise. Qed.

(** X13: the writer raises [KeyError] on a row that lacks one of the six
    columns of the header, and it reads nothing but these six columns:
    rows that agree on them are written alike. *)
Theorem X13_writer_columns :
  (forall (file : Beam.csv_file) (element : list dict),
     (exists row h, row ∈ element /\ h ∈ Beam.headers /\
                    row !! Some h = None) ->
     Beam.SaveOutputToCsv file element = Raise KeyError) /\
  (forall (file : Beam.csv_file) (element element' : list dict),
     Forall2 (fun row row' : dict =>
                forall h, h ∈ Beam.headers -> row !! Some h = row' !! Some h)
             element element' ->
     Beam.SaveOutputToCsv file element = Beam.SaveOutputToCsv file element').
Proof.
  split.
  - intros file element (row & h & Hrow & Hh & Hnone).
    unfold Beam.SaveOutputToCsv. fold cells.
    assert (exists e, cells row = Raise e) as [e He].
    { unfold cells. eapply mapM_Raise; [exact Hh|].
      unfold getitem. rewrite Hnone. reflexivity. }
    destruct (mapM_Raise cells element row e Hrow He) as [e' He'].
    rewrite He'. simpl.
    destruct (mapM_Raise_inv cells element e' He') as (row' & _ & Hr').
    rewrite (cells_Raise row' e' Hr'). reflexivity.
  - intros file element element' Hall.
    unfold Beam.SaveOutputToCsv. fold cells.
    assert (mapM cells element = mapM cells element') as ->; [|reflexivity].
    induction Hall as [|row row' element element' Hrow _ IH]; [reflexivity|].
    simpl. rewrite IH.
    assert (cells row = cells row') as ->; [|reflexivity].
    unfold cells. apply mapM_ext_in. intros h Hh.
    unfold getitem. rewrite (Hrow h Hh). reflexivity.
Qed.

Lemma X13_writer_columns_witness :
  Beam.SaveOutputToCsv [] [joined "CP1" "LE1" "5" "100" "ARAP" "T1"]
  = Raise KeyError /\
  Beam.SaveOutputToCsv [] [ex_row]
  = Beam.SaveOutputToCsv [] [<[Some "rating" := VStr "5"]> ex_row].
Proof.
  split.
  - apply (proj1 X13_writer_columns).
    exists (joined "CP1" "LE1" "5" "100" "ARAP" "T1"),
           "max(rating by counterparty)".
    split; [left|]. split; [|reflexivity].
    apply (bool_decide_unpack _). vm_compute. reflexivity.
  - apply (proj2 X13_writer_columns).
    constructor; [|constructor]. intros h Hh.
    symmetry. apply lookup_insert_ne. intros [= <-].
    revert Hh. apply (bool_decide_unpack _). vm_compute. reflexivity.
Defined.

(** ** The pandas merge as an inner join *)

Lemma matches_unique (dataset2 : list Pandas.row2) (a : Pandas.row1) :
  NoDup (map Pandas.counter_party2 dataset2) ->
  length (matches a dataset2)
  = if decide (Pandas.counter_party1 a ∈ map Pandas.counter_party2 dataset2)
    then 1%nat else 0%nat.
Proof.
  unfold matches. induction dataset2 as [|b d2 IH]; intros Hnd.
  - destruct (decide (Pandas.counter_party1 a ∈ map Pandas.counter_party2 []))
      as [Hin|_]; [|reflexivity].
    apply elem_of_nil in Hin. contradiction.
  - simpl map in *. apply NoDup_cons in Hnd as [Hb Hnd].
    rewrite filter_cons. specialize (IH Hnd).
    destruct (decide (Pandas.counter_party2 b = Pandas.counter_party1 a))
      as [Heq|Hne].
    + simpl. rewrite IH. rewrite <- Heq.
      destruct (decide (Pandas.counter_party2 b
                        ∈ map Pandas.counter_party2 d2)); [contradiction|].
      destruct (decide (Pandas.counter_party2 b
                        ∈ Pandas.counter_party2 b :: map Pandas.counter_party2 d2))
        as [_|Hn]; [reflexivity|].
      exfalso. apply Hn. left.
    + rewrite IH.
      destruct (decide (Pandas.counter_party1 a
                        ∈ map Pandas.counter_party2 d2)) as [Hin|Hin];
        destruct (decide (Pandas.counter_party1 a
                          ∈ Pandas.counter_party2 b :: map Pandas.counter_party2 d2))
          as [Hin'|Hin']; try reflexivity.
      * exfalso. apply Hin'. right. exact Hin.
      * exfalso. apply elem_of_cons in Hin' as [Heq|Hin']; [|contradiction].
        apply Hne. symmetry. exact Heq.
Qed.

(** X14: the pandas merge is the inner join on counter_party: its rows
    are the rows of dataset A paired with the tier of a row of dataset B
    of the same counter_party; when no counter_party occurs twice in
    dataset B, it has one row for each row of dataset A whose
    counter_party occurs in dataset B, and none for the others. *)
Theorem X14_merge_inner_join :
  (forall (dataset1 : list Pandas.row1) (dataset2 : list Pandas.row2)
          (r : Pandas.row),
     r ∈ Pandas.merge dataset1 dataset2 <->
     exists a b, a ∈ dataset1 /\ b ∈ dataset2 /\
       Pandas.counter_party2 b = Pandas.counter_party1 a /\
       r = with_tier a (Pandas.tier2 b)) /\
  (forall (dataset1 : list Pandas.row1) (dataset2 : list Pandas.row2),
     NoDup (map Pandas.counter_party2 dataset2) ->
     length (Pandas.merge dataset1 dataset2)
     = length (filter (fun a => Pandas.counter_party1 a
                                ∈ map Pandas.counter_party2 dataset2)
                      dataset1)).
Proof.
  split.
  - intros dataset1 dataset2 r.
    rewrite merge_Permutation, list_elem_of_bind. split.
    + intros (a & Hin & Ha).
      apply list_elem_of_fmap in Hin as (b & -> & Hb).
      unfold matches in Hb. apply list_elem_of_filter in Hb as [Hcp Hb].
      exists a, b. repeat split; assumption.
    + intros (a & b & Ha & Hb & Hcp & ->).
      exists a. split; [|exact Ha].
      apply list_elem_of_fmap. exists b. split; [reflexivity|].
      unfold matches. apply list_elem_of_filter. split; assumption.
  - intros dataset1 dataset2 Hnd.
    rewrite (Permutation_length (merge_Permutation dataset1 dataset2)).
    induction dataset1 as [|a dataset1 IH]; [reflexivity|].
    rewrite bind_cons, length_app, length_map, IH, filter_cons.
    rewrite (matches_unique dataset2 a Hnd).
    destruct (decide (Pandas.counter_party1 a
                      ∈ map Pandas.counter_party2 dataset2)); reflexivity.
Qed.

Lemma X14_merge_inner_join_witness :
  length (Pandas.merge ex_dataset1_unmatched ex_dataset2) = 2%nat.
Proof.
  rewrite (proj2 X14_merge_inner_join ex_dataset1_unmatched ex_dataset2).
  - vm_compute. reflexivity.
  - apply (bool_decide_unpack _). vm_compute. reflexivity.
Defined.

(** ** The order of the group keys *)

Lemma val_compare_eq (a b : val) :
  scalar a -> scalar b -> Pandas.val_compare a b = Eq -> a = b.
Proof.
  destruct a, b; simpl; try contradiction; try discriminate; intros _ _ H.
  - apply String_as_OT.cmp_eq in H. congruence.
  - apply Z.compare_eq in H. congruence.
Qed.

Lemma val_compare_antisym (a b : val) :
  scalar a -> scalar b ->
  Pandas.val_compare b a = CompOpp (Pandas.val_compare a b).
Proof.
  destruct a, b; simpl; try contradiction; try reflexivity; intros _ _.
  - apply String_as_OT.cmp_antisym.
  - apply Z.compare_antisym.
Qed.

Lemma val_compare_trans (a b c : val) :
  scalar a -> scalar b -> scalar c ->
  Pandas.val_compare a b = Lt -> Pandas.val_compare b c = Lt ->
  Pandas.val_compare a c = Lt.
Proof.
  destruct a, b, c; simpl; try contradiction; intros _ _ _ H1 H2;
    try discriminate; try reflexivity.
  - apply String_as_OT.cmp_lt. apply String_as_OT.cmp_lt in H1, H2.
    eapply String_as_OT.lt_trans; eassumption.
  - rewrite Z.compare_lt_iff in *. lia.
Qed.

Lemma key_compare_eq (k k' : list val) :
  Forall scalar k -> Forall scalar k' ->
  Pandas.key_compare k k' = Eq -> k = k'.
Proof.
  intros Hk. revert k'. induction Hk as [|a k Ha _ IH]; intros k' Hk' H.
  - destruct k'; [reflexivity | discriminate].
  - destruct Hk' as [|b k' Hb Hk']; [discriminate|]. simpl in H.
    destruct (Pandas.val_compare a b) eqn:Hab; try discriminate.
    rewrite (val_compare_eq a b Ha Hb Hab), (IH k' Hk' H). reflexivity.
Qed.

Lemma key_compare_antisym (k k' : list val) :
  Forall scalar k -> Forall scalar k' ->
  Pandas.key_compare k' k = CompOpp (Pandas.key_compare k k').
Proof.
  intros Hk. revert k'. induction Hk as [|a k Ha _ IH]; intros k' Hk'.
  - destruct k'; reflexivity.
  - destruct Hk' as [|b k' Hb Hk']; [reflexivity|]. simpl.
    rewrite (val_compare_antisym a b Ha Hb).
    destruct (Pandas.val_compare a b); simpl; [apply IH, Hk' | |]; reflexivity.
Qed.

Lemma key_compare_trans (k1 k2 k3 : list val) :
  Forall scalar k1 -> Forall scalar k2 -> Forall scalar k3 ->
  key_lt k1 k2 -> key_lt k2 k3 -> key_lt k1 k3.
Proof.
  unfold key_lt. intros H1. revert k2 k3.
  induction H1 as [|a k1 Ha _ IH]; intros k2 k3 H2 H3 H12 H23.
  - destruct k2; [discriminate|]. destruct k3; [discriminate | reflexivity].
  - destruct H2 as [|b k2 Hb H2]; [discriminate|].
    destruct H3 as [|c k3 Hc H3]; [discriminate|].
    simpl in *.
    destruct (Pandas.val_compare a b) eqn:Hab; try discriminate;
      destruct (Pandas.val_compare b c) eqn:Hbc; try discriminate.
    + apply (val_compare_eq a b Ha Hb) in Hab. subst b.
      apply (val_compare_eq a c Ha Hc) in Hbc. subst c.
      assert (Pandas.val_compare a a = Eq) as ->.
      { pose proof (val_compare_antisym a a Ha Ha) as Hs.
        destruct (Pandas.val_compare a a); simpl in Hs; congruence. }
      exact (IH k2 k3 H2 H3 H12 H23).
    + apply (val_compare_eq a b Ha Hb) in Hab. subst b.
      rewrite Hbc. reflexivity.
    + apply (val_compare_eq b c Hb Hc) in Hbc. subst c.
      rewrite Hab. reflexivity.
    + rewrite (val_compare_trans a b c Ha Hb Hc Hab Hbc). reflexivity.
Qed.


Lemma text_value (o : option string) :
  scalar (Pandas.text o) \/ Pandas.text o = VNone.
Proof. destruct o; [left; exact I | right; reflexivity]. Qed.

Lemma cell_value (r : Pandas.row) (c : string) (v : val) :
  Pandas.cell r c = Ok v -> scalar v \/ v = VNone.
Proof.
  unfold Pandas.cell.
  repeat (destruct (decide _);
          [intros [= <-]; first [apply text_value | left; exact I]|]).
  discriminate.
Qed.

(** A key without null holds strings and integers. *)
Lemma key_scalar (r : Pandas.row) (group_column : list string) (k : list val) :
  mapM (Pandas.cell r) group_column = Ok k -> (VNone ∉ k) -> Forall scalar k.
Proof.
  intros H. apply mapM_Ok in H.
  induction H as [|c v cs k Hc _ IH]; intros Hn; constructor.
  - destruct (cell_value r c v Hc) as [Hv| ->]; [exact Hv|].
    exfalso. apply Hn. left.
  - apply IH. intros Hin. apply Hn. right. exact Hin.
Qed.

(** The key of a row holds no null exactly when the row is complete. *)
Lemma key_complete (r : Pandas.row) (group_column : list string) (k : list val) :
  group_column ⊆ Pandas.aggr_columns ->
  mapM (Pandas.cell r) group_column = Ok k ->
  (VNone ∉ k) <-> complete group_column r.
Proof.
  intros Hsub H. apply mapM_Ok in H. unfold complete.
  induction H as [|c v cs k Hc _ IH].
  - split; [constructor | intros _; apply not_elem_of_nil].
  - rewrite (cell_aggr_column r c) in Hc by (apply Hsub; left).
    injection Hc as <-.
    rewrite not_elem_of_cons, Forall_cons, IH.
    + destruct (attribute c r) as [s|]; simpl; split.
      * intros [_ H']. split; [eexists; reflexivity | exact H'].
      * intros [_ H']. split; [discriminate | exact H'].
      * intros [H' _]. contradiction.
      * intros [[s Hs] _]. discriminate.
    + intros c' Hc'. apply Hsub. right. exact Hc'.
Qed.

(** ** The groups of a frame *)

Section PandasGroups.
Variable group_column : list string.

Lemma sound_scalar (g : list val * list Pandas.row) :
  sound_group group_column g -> Forall scalar g.1.
Proof. intros (_ & Hsc & _). exact Hsc. Qed.

Lemma pandas_group_insert_keys (k : list val) (r : Pandas.row)
    (groups : list (list val * list Pandas.row)) (P : list val -> Prop) :
  P k -> Forall P (map fst groups) ->
  Forall P (map fst (Pandas.group_insert k r groups)).
Proof.
  intros Hk. induction groups as [|[k' rs] groups IH]; intros Hall; simpl.
  - constructor; [exact Hk | constructor].
  - apply Forall_cons in Hall as [Hk' Hall].
    destruct (Pandas.key_compare k k'); simpl.
    + constructor; assumption.
    + constructor; [exact Hk|]. constructor; assumption.
    + constructor; [exact Hk' | apply IH, Hall].
Qed.

Lemma sound_singleton (k : list val) (r : Pandas.row) :
  mapM (Pandas.cell r) group_column = Ok k -> Forall scalar k ->
  sound_group group_column (k, [r]).
Proof.
  intros Hk Hsk. split; [discriminate|]. split; [exact Hsk|].
  intros r' Hr'. apply list_elem_of_singleton in Hr' as ->. exact Hk.
Qed.

Lemma pandas_group_insert_inv (k : list val) (r : Pandas.row)
    (groups : list (list val * list Pandas.row)) :
  mapM (Pandas.cell r) group_column = Ok k -> Forall scalar k ->
  Forall (sound_group group_column) groups ->
  StronglySorted key_lt (map fst groups) ->
  Forall (sound_group group_column) (Pandas.group_insert k r groups) /\
  StronglySorted key_lt (map fst (Pandas.group_insert k r groups)) /\
  mjoin (map snd (Pandas.group_insert k r groups))
    ≡ₚ mjoin (map snd groups) ++ [r].
Proof.
  intros Hk Hsk.
  induction groups as [|[k' rs] groups IH]; intros Hs Hsorted; simpl.
  - split; [|split].
    + constructor; [|constructor]. exact (sound_singleton k r Hk Hsk).
    + constructor; [constructor | constructor].
    + reflexivity.
  - apply Forall_cons in Hs as [Hg Hs]. simpl in Hsorted.
    apply StronglySorted_inv in Hsorted as [Hsorted Hlt].
    pose proof (sound_scalar _ Hg) as Hsk'. simpl in Hsk'.
    destruct (Pandas.key_compare k k') eqn:Hcmp; simpl.
    + apply (key_compare_eq k k' Hsk Hsk') in Hcmp. subst k'.
      split; [|split].
      * constructor; [|exact Hs]. destruct Hg as (Hne & _ & Hall). split.
        -- simpl. intros Heq. apply app_eq_nil in Heq as [_ Heq]. discriminate.
        -- split; [exact Hsk|].
           simpl. intros r' Hr'. apply elem_of_app in Hr' as [Hr'|Hr'].
           ++ apply Hall, Hr'.
           ++ apply list_elem_of_singleton in Hr' as ->. exact Hk.
      * constructor; assumption.
      * rewrite <- !app_assoc. apply Permutation_app_head, Permutation_app_comm.
    + split; [|split].
      * constructor; [|constructor; assumption].
        exact (sound_singleton k r Hk Hsk).
      * constructor; [constructor; assumption|].
        constructor; [exact Hcmp|].
        assert (Forall (Forall scalar) (map fst groups)) as Hsc.
        { clear -Hs. induction Hs as [|g gs Hg _ IH]; simpl; constructor;
            [apply sound_scalar, Hg | exact IH]. }
        clear -Hlt Hsc Hcmp Hsk Hsk'.
        induction Hlt as [|k2 ks Hk2 _ IH]; [constructor|].
        apply Forall_cons in Hsc as [Hs2 Hsc].
        constructor; [|apply IH, Hsc].
        exact (key_compare_trans k k' k2 Hsk Hsk' Hs2 Hcmp Hk2).
      * simpl. rewrite (Permutation_app_comm _ [r]). reflexivity.
    + destruct (IH Hs Hsorted) as (Hs' & Hsorted' & Hperm).
      split; [|split].
      * constructor; assumption.
      * constructor; [exact Hsorted'|].
        apply pandas_group_insert_keys; [|exact Hlt].
        unfold key_lt. rewrite (key_compare_antisym k k' Hsk Hsk'), Hcmp.
        reflexivity.
      * rewrite Hperm, app_assoc. reflexivity.
Qed.

Lemma pandas_fold_inv (keyed : list (list val * Pandas.row)) :
  Forall (fun kr => mapM (Pandas.cell kr.2) group_column = Ok kr.1 /\
                    Forall scalar kr.1) keyed ->
  forall groups,
    Forall (sound_group group_column) groups ->
    StronglySorted key_lt (map fst groups) ->
    let groups' :=
      foldl (fun groups kr => Pandas.group_insert kr.1 kr.2 groups)
            groups keyed in
    Forall (sound_group group_column) groups' /\
    StronglySorted key_lt (map fst groups') /\
    mjoin (map snd groups') ≡ₚ mjoin (map snd groups) ++ map snd keyed.
Proof.
  induction 1 as [|[k r] keyed [Hk Hsk] _ IH]; intros groups Hs Hsorted; simpl.
  - split; [exact Hs|]. split; [exact Hsorted|]. rewrite app_nil_r. reflexivity.
  - destruct (pandas_group_insert_inv k r groups Hk Hsk Hs Hsorted)
      as (Hs' & Hsorted' & Hperm).
    destruct (IH _ Hs' Hsorted') as (Hs'' & Hsorted'' & Hperm').
    split; [exact Hs''|]. split; [exact Hsorted''|].
    rewrite Hperm', Hperm, <- app_assoc. reflexivity.
Qed.

Hypothesis attributes : group_column ⊆ Pandas.aggr_columns.

(** The rows that [groupby] keeps are the complete rows. *)
Lemma kept_rows (df : list Pandas.row) (keyed : list (list val * Pandas.row)) :
  Forall2 (fun r kr =>
             (k ← mapM (Pandas.cell r) group_column; Ok (k, r)) = Ok kr)
          df keyed ->
  Forall (fun kr => mapM (Pandas.cell kr.2) group_column = Ok kr.1 /\
                    Forall scalar kr.1)
         (filter (fun kr : list val * Pandas.row => VNone ∉ kr.1) keyed) /\
  map snd (filter (fun kr : list val * Pandas.row => VNone ∉ kr.1) keyed)
  = filter (complete group_column) df.
Proof.
  induction 1 as [|r kr df keyed Hr _ [IH1 IH2]].
  - split; [constructor | reflexivity].
  - apply bind_Ok in Hr as (k & Hk & [= <-]). rewrite !filter_cons.
    pose proof (key_complete r group_column k attributes Hk) as Hiff.
    destruct (decide (VNone ∉ (k, r).1)) as [Hn|Hn]; simpl in Hn;
      destruct (decide (complete group_column r)) as [Hc|Hc].
    + split.
      * constructor; [|exact IH1]. simpl. split; [exact Hk|].
        exact (key_scalar r group_column k Hk Hn).
      * simpl. rewrite IH2. reflexivity.
    + exfalso. apply Hc, Hiff, Hn.
    + exfalso. apply Hn, Hiff, Hc.
    + split; assumption.
Qed.

Lemma groupby_inv (df : list Pandas.row)
    (groups : list (list val * list Pandas.row)) :
  Pandas.groupby df group_column = Ok groups ->
  Forall (sound_group group_column) groups /\
  StronglySorted key_lt (map fst groups) /\
  mjoin (map snd groups) ≡ₚ filter (complete group_column) df.
Proof.
  unfold Pandas.groupby. intros H.
  destruct (decide (group_column = [])); [discriminate|].
  apply bind_Ok in H as (cs & _ & H).
  apply bind_Ok in H as (keyed & Hkeyed & [= <-]).
  apply mapM_Ok in Hkeyed.
  destruct (kept_rows df keyed Hkeyed) as [Hall Hsnd].
  destruct (pandas_fold_inv _ Hall [] ltac:(constructor) ltac:(constructor))
    as (Hs & Hsorted & Hperm).
  split; [exact Hs|]. split; [exact Hsorted|].
  rewrite Hperm, Hsnd. reflexivity.
Qed.

End PandasGroups.




(** ** The rows of the pandas aggregation *)

Lemma sound_group_length (group_column : list string)
    (g : list val * list Pandas.row) :
  sound_group group_column g -> length g.1 = length group_column.
Proof.
  intros (Hne & _ & Hall). destruct g as [k [|r rs]]; [contradiction|].
  simpl in *. apply (mapM_Ok_length (Pandas.cell r)). apply Hall. left.
Qed.

Lemma pandas_rows_cells (group_column : list string) (df : list Pandas.row) :
  group_column ∈ Pandas.group_by_columns ->
  exists groups rows,
    Pandas.groupby df group_column = Ok groups /\
    Pandas.custom_groupby_and_aggregate df group_column = Ok rows /\
    Forall2 (fun (g : list val * list Pandas.row) (row : dict) =>
      sound_group group_column g /\
      Forall2 (fun c v => row !! Some c = Some v) group_column g.1 /\
      (forall c, c ∈ Pandas.aggr_columns -> c ∉ group_column ->
         row !! Some c = Some (VInt (Z.of_nat (length g.2)))) /\
      row !! Some "max(rating by counterparty)"
        = Some (Pandas.series_max (map Pandas.rating g.2)) /\
      row !! Some "sum(value where status=ARAP)"
        = Some (VInt (Pandas.sum_where "ARAP" g.2)) /\
      row !! Some "sum(value where status=ACCR)"
        = Some (VInt (Pandas.sum_where "ACCR" g.2)) /\
      dom row =@{gset (option string)} list_to_set (map Some Beam.headers))
      groups rows.
Proof.
  intros Hgc.
  destruct (pandas_group_by_columns_wf group_column Hgc) as (_ & Hsub & Hne).
  destruct (groupby_total df group_column Hne Hsub) as [groups Hgroups].
  destruct (groupby_inv group_column Hsub df groups Hgroups) as (Hs & _ & _).
  exists groups. unfold Pandas.custom_groupby_and_aggregate.
  rewrite Hgroups. simpl. eexists. split; [reflexivity|].
  split; [reflexivity|].
  clear Hgroups Hsub Hne.
  induction Hs as [|[k rs] groups Hg _ IH]; simpl; constructor; [|exact IH].
  clear IH. split; [exact Hg|].
  apply sound_group_length in Hg. simpl in Hg. simpl fst. simpl snd.
  unfold Pandas.agg_row. simpl fst. simpl snd.
  generalize (Pandas.sum_where "ARAP" rs), (Pandas.sum_where "ACCR" rs),
    (Pandas.series_max (map Pandas.rating rs)), (Z.of_nat (length rs)).
  intros sa sc mx n.
  unfold Pandas.group_by_columns in Hgc.
  rewrite !elem_of_cons, elem_of_nil in Hgc.
  repeat (destruct Hgc as [->|Hgc]); try contradiction;
    repeat (destruct k as [|? k]; try discriminate Hg);
    (split; [repeat constructor|]);
    (split; [intros c Hc Hnot; unfold Pandas.aggr_columns in Hc;
             repeat (apply elem_of_cons in Hc as [->|Hc]);
             try (apply elem_of_nil in Hc; contradiction);
             try (vm_compute; reflexivity);
             exfalso; apply Hnot; rewrite !elem_of_cons; tauto|]);
    repeat split; vm_compute; reflexivity.
Qed.

(** X16: for each of the seven grouping keys the pandas aggregation
    cannot fail and yields one row for each group, with exactly the six
    columns of the report: the columns of the grouping key hold the key
    of the group, the other attribute columns hold the number of rows of
    the group, and the three aggregate columns hold the largest rating
    of the group and its two conditional sums, taken in int64: the sums
    of the values wrapped around. *)
Theorem X16_pandas_output_rows :
  forall (group_column : list string) (df : list Pandas.row),
    group_column ∈ Pandas.group_by_columns ->
    exists groups rows,
      Pandas.groupby df group_column = Ok groups /\
      Pandas.custom_groupby_and_aggregate df group_column = Ok rows /\
      Forall2 (fun (g : list val * list Pandas.row) (row : dict) =>
        g.2 <> [] /\
        Forall2 (fun c v => row !! Some c = Some v) group_column g.1 /\
        (forall c, c ∈ Pandas.aggr_columns -> c ∉ group_column ->
           row !! Some c = Some (VInt (Z.of_nat (length g.2)))) /\
        (exists mx,
           row !! Some "max(rating by counterparty)" = Some (VInt mx) /\
           mx ∈ map Pandas.rating g.2 /\
           forall r, r ∈ g.2 -> Pandas.rating r <= mx) /\
        row !! Some "sum(value where status=ARAP)"
          = Some (VInt (Pandas.wrap64 (Zsum (map Pandas.value
                (filter (fun r => Pandas.status r = Some "ARAP") g.2))))) /\
        row !! Some "sum(value where status=ACCR)"
          = Some (VInt (Pandas.wrap64 (Zsum (map Pandas.value
                (filter (fun r => Pandas.status r = Some "ACCR") g.2))))) /\
        dom row =@{gset (option string)} list_to_set (map Some Beam.headers))
        groups rows.
Proof.
  intros group_column df Hgc.
  destruct (pandas_rows_cells group_column df Hgc)
    as (groups & rows & Hgroups & Hrows & Hall).
  exists groups, rows. split; [exact Hgroups|]. split; [exact Hrows|].
  eapply Forall2_impl; [exact Hall|].
  intros g row ((Hne & _ & _) & Hk & Ht & Hm & Ha & Hc & Hd).
  split; [exact Hne|]. split; [exact Hk|]. split; [exact Ht|].
  rewrite <- !sum_where_spec.
  split; [|split; [exact Ha|split; [exact Hc | exact Hd]]].
  destruct (series_max_spec (map Pandas.rating g.2)) as (mx & Hmx & Hin & Hub).
  { destruct g as [k [|r rs]]; [contradiction | discriminate]. }
  exists mx. rewrite Hm, Hmx. split; [reflexivity|]. split; [exact Hin|].
  intros r Hr. apply Hub. apply list_elem_of_fmap. eauto.
Qed.

Lemma X16_pandas_output_rows_witness :
  exists groups rows,
    Pandas.groupby (Pandas.merge ex_dataset1 ex_dataset2) ["tier"] = Ok groups /\
    Pandas.custom_groupby_and_aggregate
      (Pandas.merge ex_dataset1 ex_dataset2) ["tier"] = Ok rows /\
    length rows = length groups.
Proof.
  destruct (X16_pandas_output_rows ["tier"]
              (Pandas.merge ex_dataset1 ex_dataset2))
    as (groups & rows & Hg & Hr & Hf).
  - apply (bool_decide_unpack _). vm_compute. reflexivity.
  - exists groups, rows. split; [exact Hg|]. split; [exact Hr|].
    symmetry. exact (Forall2_length _ _ _ Hf).
Defined.

(** ** The rows of a Beam branch *)

Lemma fill_keys_dom (split_key : list string) (keys : list string) :
  forall (i : nat) (d d' : dict),
    Beam.fill_keys split_key i keys d = Ok d' ->
    dom d' =@{gset (option string)} dom d ∪ list_to_set (map Some keys).
Proof.
  induction keys as [|key keys IH]; intros i d d' H; simpl in H.
  - injection H as <-. simpl. set_solver.
  - apply bind_Ok in H as (v & _ & H). apply IH in H. rewrite H.
    rewrite dom_insert_L. simpl. set_solver.
Qed.

Lemma back_fill_dom (total : Z) (d : dict) :
  dom (Beam.back_fill total d)
  =@{gset (option string)} dom d ∪ list_to_set (map Some Beam.aggr_columns).
Proof.
  apply set_eq. intros k. rewrite elem_of_union, !elem_of_dom.
  destruct k as [c|].
  - rewrite back_fill_lookup. rewrite elem_of_list_to_set, list_elem_of_fmap.
    destruct (d !! Some c) as [v|] eqn:Hc.
    + split; [intros _; left; eauto | eauto].
    + destruct (decide (c ∈ Beam.aggr_columns)) as [Hin|Hn].
      * split; [intros _; right; eauto | eauto].
      * split; [intros [x Hx]; discriminate|].
        intros [[x Hx]|(c' & [= <-] & Hin)]; [discriminate | contradiction].
  - assert (Beam.back_fill total d !! None = d !! None) as ->.
    { unfold Beam.back_fill. generalize Beam.aggr_columns. intros cs.
      revert d. induction cs as [|c cs IH]; intros d; [reflexivity|].
      simpl. rewrite IH. destruct (d !! Some c); [reflexivity|].
      apply lookup_insert_ne. discriminate. }
    rewrite elem_of_list_to_set, list_elem_of_fmap.
    split; [intros H; left; exact H|].
    intros [H|(c' & Hc' & _)]; [exact H | discriminate].
Qed.

Lemma PrepareOutputData_dom (keys : list string) (agg : Beam.aggregate)
    (row : dict) :
  keys ⊆ Beam.aggr_columns ->
  Beam.PrepareOutputData keys agg = Ok [row] ->
  dom row =@{gset (option string)} list_to_set (map Some Beam.headers).
Proof.
  intros Hsub H. unfold Beam.PrepareOutputData in H.
  apply bind_Ok in H as (d & Hd & [= <-]).
  apply fill_keys_dom in Hd.
  rewrite !dom_insert_L, back_fill_dom, Hd, dom_empty_L.
  assert (list_to_set (map Some keys)
          ⊆@{gset (option string)} list_to_set (map Some Beam.aggr_columns))
    as Hk.
  { intros k. rewrite !elem_of_list_to_set, !list_elem_of_fmap.
    intros (c & -> & Hc). exists c. split; [reflexivity | apply Hsub, Hc]. }
  unfold Beam.headers, Beam.aggr_columns in *. simpl in *. set_solver.
Qed.

Lemma aggregates_split_length (keys : list string) (merged : list dict)
    (aggs : list Beam.aggregate) :
  Beam.aggregates keys merged = Ok aggs ->
  Forall (fun agg =>
            (length keys <= length (split "-" (Beam.agg_key agg)))%nat) aggs.
Proof.
  intros Haggs.
  destruct (aggregates_keys keys merged aggs Haggs)
    as (keyed & Hkeyed & _ & _ & Hck & _).
  apply Forall_forall. intros agg Hagg.
  assert (Beam.agg_key agg ∈ map fst keyed) as Hin.
  { apply Hck. apply list_elem_of_fmap. exists agg. split; [reflexivity | exact Hagg]. }
  apply list_elem_of_fmap in Hin as ([ck x] & Hk & Hin). simpl in Hk.
  apply ParDo_Ok in Hkeyed as (outs & Houts & ->).
  apply list_elem_of_join in Hin as (ys & Hy & Hys).
  apply list_elem_of_lookup in Hys as [i Hi].
  destruct (Forall2_lookup_r _ _ _ _ _ Houts Hi) as (x' & _ & Hx').
  apply CompositeKeyFn_inv in Hx' as (values & Hvals & ->).
  apply list_elem_of_singleton in Hy. injection Hy as -> ->.
  rewrite Hk, (Forall2_length _ _ _ Hvals). apply split_join_length.
Qed.

(** X17: for each of the seven grouping keys a Beam branch that has its
    aggregates yields one output row for each of them, with exactly the
    six columns of the report: the columns of the grouping key hold the
    pieces of the split composite key, the other attribute columns hold
    the total, and the three aggregate columns hold the largest rating
    and the two sums. *)
Theorem X17_beam_output_rows :
  forall (keys : list string) (merged : list dict) (aggs : list Beam.aggregate),
    keys ∈ Beam.group_by_columns ->
    Beam.aggregates keys merged = Ok aggs ->
    exists rows,
      Beam.output_rows keys merged = Ok rows /\
      Forall2 (fun (agg : Beam.aggregate) (row : dict) =>
        (forall j k, keys !! j = Some k ->
           row !! Some k = VStr <$> split "-" (Beam.agg_key agg) !! j) /\
        (forall c, c ∈ Beam.aggr_columns -> c ∉ keys ->
           row !! Some c = Some (VInt (Beam.total agg))) /\
        row !! Some "max(rating by counterparty)"
          = Some (VInt (Beam.max_rating agg)) /\
        row !! Some "sum(value where status=ARAP)"
          = Some (VInt (Beam.sum_arap agg)) /\
        row !! Some "sum(value where status=ACCR)"
          = Some (VInt (Beam.sum_accr agg)) /\
        dom row =@{gset (option string)} list_to_set (map Some Beam.headers))
        aggs rows.
Proof.
  intros keys merged aggs Hkeys Haggs.
  destruct (group_by_columns_wf keys Hkeys) as (Hnd & Hsub & _).
  destruct (output_rows_total keys merged aggs Haggs)
    as (rows & _ & Hrows & _ & _).
  exists rows. split; [exact Hrows|].
  unfold Beam.output_rows in Hrows. rewrite Haggs in Hrows. simpl in Hrows.
  apply ParDo_Ok in Hrows as (outs & Houts & ->).
  pose proof (aggregates_split_length keys merged aggs Haggs) as Hlens.
  clear Haggs.
  induction Houts as [|agg out aggs outs Hout _ IH]; [constructor|].
  apply Forall_cons in Hlens as [Hlen Hlens]. specialize (IH Hlens).
  destruct (PrepareOutputData_spec keys agg Hnd Hsub Hlen)
    as (row & Hrow & H1 & H2 & H3 & H4 & H5).
  rewrite Hrow in Hout. injection Hout as <-. simpl.
  constructor; [|exact IH].
  repeat split; try assumption.
  exact (PrepareOutputData_dom keys agg row Hsub Hrow).
Qed.

Lemma X17_beam_output_rows_witness :
  exists rows,
    Beam.output_rows ["tier"] ex_merged = Ok rows /\ length rows = 1%nat.
Proof.
  destruct (X17_beam_output_rows ["tier"] ex_merged
              [Beam.Aggregate "T1" 5 100 50 2]) as (rows & Hr & Hf).
  - apply (bool_decide_unpack _). vm_compute. reflexivity.
  - vm_compute. reflexivity.
  - exists rows. split; [exact Hr|].
    symmetry. exact (Forall2_length _ _ _ Hf).
Defined.
